(** * spotiftCLI: the live playback state of the terminal client

    A shallow embedding of the go-librespot front end of the repository:
    the event reader of [internal/player/events.go], the payload types of
    package [player], the progress bar of [internal/display/display.go] and
    the state owner of the [main] package ([appState], [applyEvent],
    [applyStatus], [handleKey], [cycleRepeat] and the [select] loop of
    [main]).

    Conventions.
    - Go's [int] is taken at its 64-bit size; [int] and [time.Duration]
      (an [int64] count of nanoseconds) are [Z] with the two's-complement
      wrap-around of Go's arithmetic written out ([wrap64]).
    - Go strings are [string]s of bytes; a [[]byte] is a [list byte].
    - A pointer that may be [nil] is an [option]; a call that panics
      returns [None].
    - [float64] is binary64 of [SpecFloat] (precision 53, emax 1024). *)

From Stdlib Require Import ZArith List String Ascii Strings.Byte Bool Lia.
From Stdlib Require Import Floats.SpecFloat.
Import ListNotations.

Set Warnings "-register-all".

Local Open Scope string_scope.
Local Open Scope Z_scope.

(** Go's [==] on strings. *)
Infix "==" := String.eqb (at level 70, no associativity).

(** ** Machine integers *)

Definition MinInt64 : Z := - 2 ^ 63.
Definition MaxInt64 : Z := 2 ^ 63 - 1.

(** The value an [int64] holds after an arithmetic result [z]. *)
Definition wrap64 (z : Z) : Z := (z + 2 ^ 63) mod 2 ^ 64 - 2 ^ 63.

Definition inInt64 (z : Z) : bool := (MinInt64 <=? z) && (z <=? MaxInt64).

(** ** Package [time] *)

Module time.

Definition Duration : Type := Z.

Definition Millisecond : Duration := 1000000.
Definition Second : Duration := 1000000000.

(** [a + b] and [a * b] on [time.Duration]. *)
Definition add (a b : Duration) : Duration := wrap64 (a + b).
Definition mul (a b : Duration) : Duration := wrap64 (a * b).

End time.

(** ** Package [encoding/json], as far as the client relies on it

    The tokenizer is not modelled: a byte slice given to [json.Unmarshal]
    is either not one well-formed JSON text ([None]; this includes the
    empty slice) or the JSON value it spells. *)

Module json.

Inductive Value : Type :=
| Null
| Bool (b : bool)
(** [Number (Some z)]: an integer literal; [Number None]: a literal
    with a fraction or an exponent. *)
| Number (n : option Z)
| Str (s : string)
| Array (elems : list Value)
| Object (members : list (string * Value)).

Definition Text : Type := option Value.

(** [json.RawMessage]: the undecoded bytes of one member. *)
Definition RawMessage : Type := Text.

Definition isLower (c : ascii) : bool :=
  let n := nat_of_ascii c in (97 <=? n)%nat && (n <=? 122)%nat.

Definition upper (c : ascii) : ascii :=
  if isLower c then ascii_of_nat (nat_of_ascii c - 32) else c.

(** [foldName]: the key under which a member name is matched against the
    field tags without regard to case.  ASCII letters go to upper case;
    U+017F and U+212A (bytes C5 BF and E2 84 AA) fold to S and K; every
    other rune folds to a rune outside ASCII and is left as it is here,
    which does not change which keys meet an ASCII tag. *)
Fixpoint foldName (s : string) : string :=
  match s with
  | EmptyString => EmptyString
  | String c rest =>
      match nat_of_ascii c, rest with
      | 197%nat, String d rest' =>
          if (nat_of_ascii d =? 191)%nat then String "S" (foldName rest')
          else String c (foldName rest)
      | 226%nat, String d (String e rest') =>
          if ((nat_of_ascii d =? 132) && (nat_of_ascii e =? 170))%nat
          then String "K" (foldName rest')
          else String c (foldName rest)
      | _, _ => String (upper c) (foldName rest)
      end
  end.

(** Does member name [key] select the field tagged [tag]? *)
Definition selects (key tag : string) : bool :=
  String.eqb (foldName key) (foldName tag).

(** Decoding one member value into a field that holds [old].  [None] is
    an [UnmarshalTypeError]; JSON [null] leaves a scalar as it is. *)
Definition intField (old : Z) (v : Value) : option Z :=
  match v with
  | Null => Some old
  | Number (Some z) => if inInt64 z then Some z else None
  | _ => None
  end.

Definition boolField (old : bool) (v : Value) : option bool :=
  match v with
  | Null => Some old
  | Bool b => Some b
  | _ => None
  end.

Definition stringField (old : string) (v : Value) : option string :=
  match v with
  | Null => Some old
  | Str s => Some s
  | _ => None
  end.

Fixpoint stringElems (elems : list Value) : option (list string) :=
  match elems with
  | [] => Some []
  | v :: rest =>
      match stringField "" v, stringElems rest with
      | Some s, Some ss => Some (s :: ss)
      | _, _ => None
      end
  end.

(** A [[]string] field: [null] resets it to [nil]; an array is decoded
    element by element (a [null] element is taken as the empty string:
    the reuse of the previous backing array when a member name occurs
    twice is not modelled). *)
Definition stringsField (old : list string) (v : Value) : option (list string) :=
  match v with
  | Null => Some []
  | Array elems => stringElems elems
  | _ => None
  end.

(** What [json.Unmarshal] needs to know of a struct type: its zero
    value and how one object member is stored into it. *)
Class Struct (T : Type) : Type :=
  { zero : T;
    setMember : T -> string -> Value -> option T }.

Fixpoint object {T} `{Struct T} (d : T) (members : list (string * Value)) : option T :=
  match members with
  | [] => Some d
  | (key, v) :: rest =>
      match setMember d key v with
      | Some d' => object d' rest
      | None => None
      end
  end.

(** [json.Unmarshal(data, &d)] for a fresh struct [d]: [Some d] when
    [err == nil].  A top-level [null] is accepted and stores nothing. *)
Definition Unmarshal {T} `{Struct T} (data : Text) : option T :=
  match data with
  | None => None
  | Some Null => Some zero
  | Some (Object members) => object zero members
  | Some _ => None
  end.

End json.

(** ** Package [player]: payload types, the REST client, the event reader *)

Module player.

(** [Track] of the go-librespot API responses. *)
Record Track : Type :=
  { Track_URI : string;
    Track_Name : string;
    Track_ArtistNames : list string;
    Track_AlbumName : string;
    Track_AlbumCover : string;
    Track_Duration : Z (* milliseconds *) }.

(** [Status]: the full playback status returned by GET /status. *)
Record Status : Type :=
  { Stopped : bool;
    Paused : bool;
    Buffering : bool;
    Volume : Z;
    VolumeSteps : Z;
    RepeatContext : bool;
    RepeatTrack : bool;
    ShuffleContext : bool;
    Track_ : option Track }.

(** [Event]: a WebSocket event sent on /events. *)
Record Event : Type :=
  { Type_ : string;
    Data : json.RawMessage }.

Record EventMetadata : Type :=
  { URI : string;
    Name : string;
    ArtistNames : list string;
    AlbumName : string;
    AlbumCover : string;
    Duration : Z (* ms *);
    Position : Z (* ms *) }.

Record EventSeek : Type :=
  { Seek_Position : Z (* ms *);
    Seek_Duration : Z (* ms *) }.

Record EventVolume : Type :=
  { Volume_Value : Z;
    Volume_Max : Z }.

Record EventBool : Type :=
  { Bool_Value : bool }.

(** The struct tags, as [json.Unmarshal] reads them. *)

#[global] Instance Event_Struct : json.Struct Event :=
  {| json.zero := {| Type_ := ""; Data := None |};
     json.setMember ev key v :=
       if json.selects key "type" then
         option_map (fun s => {| Type_ := s; Data := Data ev |})
                    (json.stringField (Type_ ev) v)
       else if json.selects key "data" then
         Some {| Type_ := Type_ ev; Data := Some v |}
       else Some ev |}.

#[global] Instance EventMetadata_Struct : json.Struct EventMetadata :=
  {| json.zero := {| URI := ""; Name := ""; ArtistNames := []; AlbumName := "";
                     AlbumCover := ""; Duration := 0; Position := 0 |};
     json.setMember d key v :=
       if json.selects key "uri" then
         option_map (fun x => {| URI := x; Name := Name d; ArtistNames := ArtistNames d;
                                 AlbumName := AlbumName d; AlbumCover := AlbumCover d;
                                 Duration := Duration d; Position := Position d |})
                    (json.stringField (URI d) v)
       else if json.selects key "name" then
         option_map (fun x => {| URI := URI d; Name := x; ArtistNames := ArtistNames d;
                                 AlbumName := AlbumName d; AlbumCover := AlbumCover d;
                                 Duration := Duration d; Position := Position d |})
                    (json.stringField (Name d) v)
       else if json.selects key "artist_names" then
         option_map (fun x => {| URI := URI d; Name := Name d; ArtistNames := x;
                                 AlbumName := AlbumName d; AlbumCover := AlbumCover d;
                                 Duration := Duration d; Position := Position d |})
                    (json.stringsField (ArtistNames d) v)
       else if json.selects key "album_name" then
         option_map (fun x => {| URI := URI d; Name := Name d; ArtistNames := ArtistNames d;
                                 AlbumName := x; AlbumCover := AlbumCover d;
                                 Duration := Duration d; Position := Position d |})
                    (json.stringField (AlbumName d) v)
       else if json.selects key "album_cover_url" then
         option_map (fun x => {| URI := URI d; Name := Name d; ArtistNames := ArtistNames d;
                                 AlbumName := AlbumName d; AlbumCover := x;
                                 Duration := Duration d; Position := Position d |})
                    (json.stringField (AlbumCover d) v)
       else if json.selects key "duration" then
         option_map (fun x => {| URI := URI d; Name := Name d; ArtistNames := ArtistNames d;
                                 AlbumName := AlbumName d; AlbumCover := AlbumCover d;
                                 Duration := x; Position := Position d |})
                    (json.intField (Duration d) v)
       else if json.selects key "position" then
         option_map (fun x => {| URI := URI d; Name := Name d; ArtistNames := ArtistNames d;
                                 AlbumName := AlbumName d; AlbumCover := AlbumCover d;
                                 Duration := Duration d; Position := x |})
                    (json.intField (Position d) v)
       else Some d |}.

#[global] Instance EventSeek_Struct : json.Struct EventSeek :=
  {| json.zero := {| Seek_Position := 0; Seek_Duration := 0 |};
     json.setMember d key v :=
       if json.selects key "position" then
         option_map (fun x => {| Seek_Position := x; Seek_Duration := Seek_Duration d |})
                    (json.intField (Seek_Position d) v)
       else if json.selects key "duration" then
         option_map (fun x => {| Seek_Position := Seek_Position d; Seek_Duration := x |})
                    (json.intField (Seek_Duration d) v)
       else Some d |}.

#[global] Instance EventVolume_Struct : json.Struct EventVolume :=
  {| json.zero := {| Volume_Value := 0; Volume_Max := 0 |};
     json.setMember d key v :=
       if json.selects key "value" then
         option_map (fun x => {| Volume_Value := x; Volume_Max := Volume_Max d |})
                    (json.intField (Volume_Value d) v)
       else if json.selects key "max" then
         option_map (fun x => {| Volume_Value := Volume_Value d; Volume_Max := x |})
                    (json.intField (Volume_Max d) v)
       else Some d |}.

#[global] Instance EventBool_Struct : json.Struct EventBool :=
  {| json.zero := {| Bool_Value := false |};
     json.setMember d key v :=
       if json.selects key "value" then
         option_map (fun x => {| Bool_Value := x |}) (json.boolField (Bool_Value d) v)
       else Some d |}.

(** The control requests of [Client] that the key handler issues; each
    is one POST to the daemon and returns an [error]. *)
Inductive Request : Type :=
| PlayPause
| Next
| Prev
| SetVolumeRelative (delta : Z)
| SetShuffle (on : bool)
| SetRepeatContext (on : bool)
| SetRepeatTrack (on : bool).

(** Go's [error]: [None] is [nil]. *)
Definition error : Type := option string.

(** The client as the state owner sees it: what each request returns
    is up to the daemon and the network. *)
Record Client : Type :=
  { post : Request -> error }.

(** One result of [h.conn.ReadMessage()]. *)
Inductive Read : Type :=
| ReadErr
| ReadMsg (msg : json.Text).

(** [EventHandler.Start]: the reader goroutine, run over the results of
    its successive [ReadMessage] calls; the value is the sequence of
    events it sends on [h.Ch] before the deferred [close(h.Ch)].  A read
    error returns; an undecodable message takes [continue].  Reads left
    over when the list ends are reads that have not completed yet; a full
    channel only makes the reader wait. *)
Fixpoint Start (reads : list Read) : list Event :=
  match reads with
  | [] => []
  | ReadErr :: _ => []
  | ReadMsg msg :: rest =>
      match json.Unmarshal msg with
      | None => Start rest
      | Some ev => ev :: Start rest
      end
  end.

End player.

(** ** Package [strings] *)

Module strings.

Fixpoint copies (s : string) (n : nat) : string :=
  match n with
  | O => ""
  | S n' => s ++ copies s n'
  end.

(** [strings.Repeat(s, count)] panics when [count] is negative and when
    the length of the result does not fit an [int]. *)
Definition Repeat (s : string) (count : Z) : option string :=
  if count <? 0 then None
  else if Z.of_nat (String.length s) * count >? MaxInt64 then None
  else Some (copies s (Z.to_nat count)).

End strings.

(** ** Package [display] *)

Module display.

Definition float64 : Type := spec_float.

(** The conversion [float64(n)] of an integer: round to nearest even. *)
Definition ofInt (n : Z) : float64 := binary_normalize 53 1024 n 0 false.

Definition fdiv (x y : float64) : float64 := SFdiv 53 1024 x y.
Definition fmul (x y : float64) : float64 := SFmul 53 1024 x y.

(** The conversion [int(f)]: the fraction is discarded.  For a value
    outside [int] (or a NaN) Go leaves the result to the implementation;
    the value taken here is the one amd64 gives. *)
Definition toInt (f : float64) : Z :=
  match f with
  | S754_zero _ => 0
  | S754_finite s m e =>
      let magnitude := Z.shiftl (Zpos m) e in
      let z := if s then - magnitude else magnitude in
      if inInt64 z then z else MinInt64
  | _ => MinInt64
  end.

(** [Track]: a track for display purposes. *)
Record Track : Type :=
  { Name : string;
    Artist : string;
    Album : string;
    Duration : time.Duration;
    Progress : time.Duration;
    IsPlaying : bool;
    Shuffle : bool;
    Repeat : string;
    ImageURL : string }.

(** [CreateProgressBar]: [None] when one of the [strings.Repeat] calls
    panics. *)
Definition CreateProgressBar (current total : time.Duration) (width : Z)
  : option string :=
  if total =? 0 then strings.Repeat "─" width
  else
    let percentage := fdiv (ofInt current) (ofInt total) in
    let filled := toInt (fmul (ofInt width) percentage) in
    let filled := if filled >? width then width else filled in
    let filled := if filled <? 0 then 0 else filled in
    match strings.Repeat "━" filled,
          strings.Repeat "─" (wrap64 (wrap64 (width - filled) - 1)) with
    | Some done, Some rest => Some (done ++ "●" ++ rest)
    | _, _ => None
    end.

(** [TruncateString]: the slice [s[:maxLen-3]] panics when its bound is
    negative or beyond [len(s)]. *)
Definition TruncateString (s : string) (maxLen : Z) : option string :=
  let len := Z.of_nat (String.length s) in
  if len <=? maxLen then Some s
  else
    let high := wrap64 (maxLen - 3) in
    if (high <? 0) || (len <? high) then None
    else Some (substring 0 (Z.to_nat high) s ++ "...").

(** What [DisplayCurrentTrack] puts on the screen, as far as it depends
    on the functions above (colours, the clock columns and the icons are
    plain printing). *)
Record Frame : Type :=
  { songTitle : string;
    artistName : string;
    albumName : string;
    progressBar : string }.

(** [DisplayCurrentTrack]: [None] when drawing panics. *)
Definition DisplayCurrentTrack (track : Track) : option Frame :=
  match TruncateString (Name track) 60,
        TruncateString (Artist track) 60,
        TruncateString (Album track) 60,
        CreateProgressBar (Progress track) (Duration track) 50 with
  | Some t, Some a, Some b, Some bar =>
      Some {| songTitle := t; artistName := a; albumName := b; progressBar := bar |}
  | _, _, _, _ => None
  end.

End display.

(** ** Package [main]: the state owner *)

Module main.

(** [appState]: the live playback state updated from WebSocket events. *)
Record appState : Type :=
  { trackName : string;
    artistNames : string;
    albumName : string;
    duration : time.Duration;
    progress : time.Duration;
    isPlaying : bool;
    shuffle : bool;
    repeat : string;
    volume : Z;
    stopped : bool }.

(** The assignments [state.f = v] through the pointer [state]. *)

Definition set_trackName (state : appState) (v : string) : appState :=
  {| trackName := v;
     artistNames := artistNames state;
     albumName := albumName state;
     duration := duration state;
     progress := progress state;
     isPlaying := isPlaying state;
     shuffle := shuffle state;
     repeat := repeat state;
     volume := volume state;
     stopped := stopped state |}.

Definition set_artistNames (state : appState) (v : string) : appState :=
  {| trackName := trackName state;
     artistNames := v;
     albumName := albumName state;
     duration := duration state;
     progress := progress state;
     isPlaying := isPlaying state;
     shuffle := shuffle state;
     repeat := repeat state;
     volume := volume state;
     stopped := stopped state |}.

Definition set_albumName (state : appState) (v : string) : appState :=
  {| trackName := trackName state;
     artistNames := artistNames state;
     albumName := v;
     duration := duration state;
     progress := progress state;
     isPlaying := isPlaying state;
     shuffle := shuffle state;
     repeat := repeat state;
     volume := volume state;
     stopped := stopped state |}.

Definition set_duration (state : appState) (v : time.Duration) : appState :=
  {| trackName := trackName state;
     artistNames := artistNames state;
     albumName := albumName state;
     duration := v;
     progress := progress state;
     isPlaying := isPlaying state;
     shuffle := shuffle state;
     repeat := repeat state;
     volume := volume state;
     stopped := stopped state |}.

Definition set_progress (state : appState) (v : time.Duration) : appState :=
  {| trackName := trackName state;
     artistNames := artistNames state;
     albumName := albumName state;
     duration := duration state;
     progress := v;
     isPlaying := isPlaying state;
     shuffle := shuffle state;
     repeat := repeat state;
     volume := volume state;
     stopped := stopped state |}.

Definition set_isPlaying (state : appState) (v : bool) : appState :=
  {| trackName := trackName state;
     artistNames := artistNames state;
     albumName := albumName state;
     duration := duration state;
     progress := progress state;
     isPlaying := v;
     shuffle := shuffle state;
     repeat := repeat state;
     volume := volume state;
     stopped := stopped state |}.

Definition set_shuffle (state : appState) (v : bool) : appState :=
  {| trackName := trackName state;
     artistNames := artistNames state;
     albumName := albumName state;
     duration := duration state;
     progress := progress state;
     isPlaying := isPlaying state;
     shuffle := v;
     repeat := repeat state;
     volume := volume state;
     stopped := stopped state |}.

Definition set_repeat (state : appState) (v : string) : appState :=
  {| trackName := trackName state;
     artistNames := artistNames state;
     albumName := albumName state;
     duration := duration state;
     progress := progress state;
     isPlaying := isPlaying state;
     shuffle := shuffle state;
     repeat := v;
     volume := volume state;
     stopped := stopped state |}.

Definition set_volume (state : appState) (v : Z) : appState :=
  {| trackName := trackName state;
     artistNames := artistNames state;
     albumName := albumName state;
     duration := duration state;
     progress := progress state;
     isPlaying := isPlaying state;
     shuffle := shuffle state;
     repeat := repeat state;
     volume := v;
     stopped := stopped state |}.

Definition set_stopped (state : appState) (v : bool) : appState :=
  {| trackName := trackName state;
     artistNames := artistNames state;
     albumName := albumName state;
     duration := duration state;
     progress := progress state;
     isPlaying := isPlaying state;
     shuffle := shuffle state;
     repeat := repeat state;
     volume := volume state;
     stopped := v |}.

(** [joinStrings] joins a slice of strings with ", ". *)
Definition joinStrings (ss : list string) : string :=
  match ss with
  | [] => ""
  | s0 :: rest => fold_left (fun result s => result ++ ", " ++ s) rest s0
  end.

(** [time.Duration(n) * time.Millisecond]. *)
Definition ms (n : Z) : time.Duration := time.mul n time.Millisecond.

(** *** Outbound requests

    A computation that may call the REST client: it reads what the
    client returns and leaves the requests it issued, in order. *)
Definition Remote (A : Type) : Type := player.Client -> A * list player.Request.

Definition ret {A} (a : A) : Remote A := fun _ => (a, []).

Definition bind {A B} (m : Remote A) (k : A -> Remote B) : Remote B :=
  fun pc =>
    let (a, sent) := m pc in
    let (b, sent') := k a pc in
    (b, (sent ++ sent')%list).

Definition call (r : player.Request) : Remote player.error :=
  fun pc => (player.post pc r, [r]).

Notation "x <- m ;; k" := (bind m (fun x => k))
  (at level 61, m at next level, right associativity).
Notation "'discard' m ;; k" := (bind m (fun _ => k))
  (at level 61, m at next level, right associativity).

(** [cycleRepeat] cycles through: off, context, track, off. *)
Definition cycleRepeat (state : appState) : Remote appState :=
  if repeat state == "off" then
    discard call (player.SetRepeatContext true) ;;
    ret (set_repeat state "context")
  else if repeat state == "context" then
    discard call (player.SetRepeatContext false) ;;
    discard call (player.SetRepeatTrack true) ;;
    ret (set_repeat state "track")
  else
    discard call (player.SetRepeatTrack false) ;;
    ret (set_repeat state "off").

(** [min] and [max], the helpers at the end of the package. *)
Definition min (a b : Z) : Z := if a <? b then a else b.
Definition max (a b : Z) : Z := if a >? b then a else b.

(** [len(key) == 1 && key[0] == c] *)
Definition is1 (key : list byte) (c : byte) : bool :=
  match key with
  | [k0] => Byte.eqb k0 c
  | _ => false
  end.

(** [len(key) == 3 && key[0] == 0x1b && key[1] == '[' && key[2] == c] *)
Definition isArrow (key : list byte) (c : byte) : bool :=
  match key with
  | [k0; k1; k2] => Byte.eqb k0 x1b && Byte.eqb k1 "["%byte && Byte.eqb k2 c
  | _ => false
  end.

(** [handleKey] processes a raw key sequence; the boolean is true if the
    user wants to quit.  Restoring the terminal and the farewell line
    are plain output. *)
Definition handleKey (key : list byte) (state : appState) : Remote (bool * appState) :=
  if is1 key "q"%byte || is1 key x03 then
    ret (true, state)
  else if is1 key " "%byte then
    discard call player.PlayPause ;;
    ret (false, set_isPlaying state (negb (isPlaying state)))
  else if is1 key "l"%byte || isArrow key "C"%byte then
    discard call player.Next ;;
    ret (false, state)
  else if is1 key "h"%byte || isArrow key "D"%byte then
    discard call player.Prev ;;
    ret (false, state)
  else if is1 key "k"%byte || isArrow key "A"%byte then
    discard call (player.SetVolumeRelative 5) ;;
    ret (false, set_volume state (min 100 (wrap64 (volume state + 5))))
  else if is1 key "j"%byte || isArrow key "B"%byte then
    discard call (player.SetVolumeRelative (-5)) ;;
    ret (false, set_volume state (max 0 (wrap64 (volume state - 5))))
  else if is1 key "s"%byte then
    let newShuffle := negb (shuffle state) in
    discard call (player.SetShuffle newShuffle) ;;
    ret (false, set_shuffle state newShuffle)
  else if is1 key "r"%byte then
    state <- cycleRepeat state ;;
    ret (false, state)
  else ret (false, state).

(** [applyEvent] updates [appState] from a WebSocket event. *)
Definition applyEvent (state : appState) (ev : player.Event) : appState :=
  if player.Type_ ev == "metadata" then
    match json.Unmarshal (player.Data ev) : option player.EventMetadata with
    | Some d =>
        let state := set_trackName state (player.Name d) in
        let state := set_artistNames state (joinStrings (player.ArtistNames d)) in
        let state := set_albumName state (player.AlbumName d) in
        let state := set_duration state (ms (player.Duration d)) in
        let state := set_progress state (ms (player.Position d)) in
        set_stopped state false
    | None => state
    end
  else if player.Type_ ev == "playing" then
    let state := set_isPlaying state true in
    set_stopped state false
  else if player.Type_ ev == "paused" then
    set_isPlaying state false
  else if player.Type_ ev == "stopped" then
    let state := set_isPlaying state false in
    set_stopped state true
  else if player.Type_ ev == "seek" then
    match json.Unmarshal (player.Data ev) : option player.EventSeek with
    | Some d =>
        let state := set_progress state (ms (player.Seek_Position d)) in
        set_duration state (ms (player.Seek_Duration d))
    | None => state
    end
  else if player.Type_ ev == "volume" then
    match json.Unmarshal (player.Data ev) : option player.EventVolume with
    | Some d => set_volume state (player.Volume_Value d)
    | None => state
    end
  else if player.Type_ ev == "shuffle_context" then
    match json.Unmarshal (player.Data ev) : option player.EventBool with
    | Some d => set_shuffle state (player.Bool_Value d)
    | None => state
    end
  else if player.Type_ ev == "repeat_context" then
    match json.Unmarshal (player.Data ev) : option player.EventBool with
    | Some d =>
        if player.Bool_Value d then set_repeat state "context"
        else if repeat state == "context" then set_repeat state "off"
        else state
    | None => state
    end
  else if player.Type_ ev == "repeat_track" then
    match json.Unmarshal (player.Data ev) : option player.EventBool with
    | Some d =>
        if player.Bool_Value d then set_repeat state "track"
        else if repeat state == "track" then set_repeat state "off"
        else state
    | None => state
    end
  else state.

(** [applyStatus] seeds [appState] from the REST /status response. *)
Definition applyStatus (state : appState) (s : player.Status) : appState :=
  let state := set_isPlaying state (negb (player.Paused s) && negb (player.Stopped s)) in
  let state := set_stopped state (player.Stopped s) in
  let state := set_shuffle state (player.ShuffleContext s) in
  let state := set_volume state (player.Volume s) in
  let state :=
    if player.RepeatTrack s then set_repeat state "track"
    else if player.RepeatContext s then set_repeat state "context"
    else set_repeat state "off" in
  match player.Track_ s with
  | Some track =>
      let state := set_trackName state (player.Track_Name track) in
      let state := set_artistNames state (joinStrings (player.Track_ArtistNames track)) in
      let state := set_albumName state (player.Track_AlbumName track) in
      set_duration state (ms (player.Track_Duration track))
  | None => state
  end.

(** The [case <-ticker.C] arm of [main], without its [render]. *)
Definition tick (state : appState) : appState :=
  if isPlaying state && negb (stopped state) then
    let state := set_progress state (time.add (progress state) time.Second) in
    if progress state >? duration state then set_progress state (duration state)
    else state
  else state.

(** What [render] draws. *)
Inductive Screen : Type :=
| NoTrack
| NowPlaying (frame : display.Frame).

(** [render] draws the current state to the terminal; [None] when
    drawing panics. *)
Definition render (state : appState) : option Screen :=
  if stopped state || (trackName state == "") then Some NoTrack
  else
    let repeatMode :=
      if repeat state == "context" then "context"
      else if repeat state == "track" then "track"
      else "off" in
    let t := {| display.Name := trackName state;
                display.Artist := artistNames state;
                display.Album := albumName state;
                display.Duration := duration state;
                display.Progress := progress state;
                display.IsPlaying := isPlaying state;
                display.Shuffle := shuffle state;
                display.Repeat := repeatMode;
                display.ImageURL := "" |} in
    option_map NowPlaying (display.DisplayCurrentTrack t).

(** *** The [select] loop of [main]

    The loop is run over the items in the order [select] receives
    them. *)
Inductive Item : Type :=
| Signal                                (* <-sigChan *)
| Recv (ev : option player.Event)       (* ev, ok := <-events.Ch; [None]: closed *)
| Tick                                  (* <-ticker.C *)
| Key (key : list byte).                (* key := <-keysCh *)

Inductive Control : Type :=
| Continue   (* back to [select] *)
| Return     (* [main] returns *)
| Panic.     (* [render] panicked *)

Definition rendered (state : appState) : Control :=
  match render state with
  | Some _ => Continue
  | None => Panic
  end.

(** One iteration of the [for] loop. *)
Definition step (state : appState) (item : Item) : Remote (Control * appState) :=
  match item with
  | Signal => ret (Return, state)
  | Recv None => ret (Return, state)
  | Recv (Some ev) =>
      let state := applyEvent state ev in
      ret (rendered state, state)
  | Tick =>
      let state := tick state in
      ret (rendered state, state)
  | Key key =>
      r <- handleKey key state ;;
      let (quit, state) := r : bool * appState in
      if quit then ret (Return, state)
      else ret (rendered state, state)
  end.

Fixpoint loop (state : appState) (items : list Item) : Remote (Control * appState) :=
  match items with
  | [] => ret (Continue, state)
  | item :: rest =>
      r <- step state item ;;
      match r : Control * appState with
      | (Continue, state) => loop state rest
      | stop => ret stop
      end
  end.

(** [state := &appState{repeat: "off"}] *)
Definition initial : appState :=
  {| trackName := ""; artistNames := ""; albumName := "";
     duration := 0; progress := 0; isPlaying := false; shuffle := false;
     repeat := "off"; volume := 0; stopped := false |}.

(** Seeding from [pc.Status()]: [None] is [err != nil]. *)
Definition seed (status : option player.Status) : appState :=
  match status with
  | Some s => applyStatus initial s
  | None => initial
  end.

(** [main], from the seeding on (the daemon is up, the event stream and
    the raw terminal were obtained). *)
Definition main (status : option player.Status) (items : list Item)
  : Remote (Control * appState) :=
  let state := seed status in
  match rendered state with
  | Continue => loop state items
  | stop => ret (stop, state)
  end.

End main.

(** ** Package [devices] *)

Module devices.

Record Device : Type :=
  { ID : string;
    Name : string;
    Type_ : string;
    IsActive : bool;
    IsRestricted : bool;
    VolumePercent : Z;
    SupportsVolume : bool }.

(** [spotify.PlayerDevice] of the Web API client, as far as [GetDevices]
    reads it. *)
Record PlayerDevice : Type :=
  { PlayerDevice_ID : string;
    PlayerDevice_Name : string;
    PlayerDevice_Type : string;
    Active : bool;
    Restricted : bool;
    Volume : Z }.

(** A returned pair [(value, error)]. *)
Inductive Result (A : Type) : Type :=
| Ok (a : A)
| Err (err : string).

Arguments Ok {A} a.
Arguments Err {A} err.

(** [GetDevices], given what [dm.client.PlayerDevices] answers. *)
Definition GetDevices (answer : Result (list PlayerDevice)) : Result (list Device) :=
  match answer with
  | Err err => Err ("failed to get devices: " ++ err)
  | Ok devices =>
      Ok (map (fun d =>
                 {| ID := PlayerDevice_ID d;
                    Name := PlayerDevice_Name d;
                    Type_ := PlayerDevice_Type d;
                    IsActive := Active d;
                    IsRestricted := Restricted d;
                    VolumePercent := Volume d;
                    SupportsVolume := negb (Restricted d) |})
              devices)
  end.

(** [for _, d := range devices { if d.IsActive { return &d, nil } }] *)
Fixpoint firstActive (devices : list Device) : option Device :=
  match devices with
  | [] => None
  | d :: rest => if IsActive d then Some d else firstActive rest
  end.

Definition GetActiveDevice (answer : Result (list PlayerDevice)) : Result Device :=
  match GetDevices answer with
  | Err err => Err err
  | Ok devices =>
      match firstActive devices with
      | Some d => Ok d
      | None => Err "no active device found"
      end
  end.

(** One call of [dm.client.TransferPlayback]. *)
Record Transfer : Type :=
  { deviceID : string;
    play : bool }.

(** [TransferPlayback], given what the client answers ([None] is [nil]). *)
Definition TransferPlayback (answer : option string) : option string :=
  match answer with
  | Some err => Some ("failed to transfer playback: " ++ err)
  | None => None
  end.

(** [EnsureActiveDevice].  [first] and [second] are the answers to the
    first and, if it is made, the second [PlayerDevices] call;
    [transfer] is the answer to a transfer request.  The value comes with
    the transfer requests issued. *)
Definition EnsureActiveDevice
  (first second : Result (list PlayerDevice)) (transfer : Transfer -> option string)
  : Result Device * list Transfer :=
  match GetActiveDevice first with
  | Ok device => (Ok device, [])
  | Err _ =>
      match GetDevices second with
      | Err err => (Err err, [])
      | Ok devices =>
          match devices with
          | [] => (Err "no devices available - please open Spotify on a device", [])
          | firstDevice :: _ =>
              let request := {| deviceID := ID firstDevice; play := false |} in
              match TransferPlayback (transfer request) with
              | Some err => (Err err, [request])
              | None => (Ok firstDevice, [request])
              end
          end
      end
  end.

(** [SelectDeviceInteractive] *)
Definition SelectDeviceInteractive (devices : list Device) : Result Device :=
  match devices with
  | [] => Err "no devices available"
  | [only] => Ok only
  | first :: _ =>
      match firstActive devices with
      | Some d => Ok d
      | None => Ok first
      end
  end.

(** [strings.Contains(s, substr)] *)
Definition Contains (s substr : string) : bool :=
  match index 0 substr s with
  | Some _ => true
  | None => false
  end.

Section FindDeviceByName.

(** [strings.ToLower], the lower-casing of the standard library. *)
Variable ToLower : string -> string.

(** The loop of [FindDeviceByName], [name] already in lower case. *)
Fixpoint byName (devices : list Device) (name : string) : option Device :=
  match devices with
  | [] => None
  | d :: rest =>
      if ToLower (Name d) == name then Some d
      else if Contains (ToLower (Name d)) name then Some d
      else byName rest name
  end.

Definition FindDeviceByName (devices : list Device) (name : string) : Result Device :=
  let name := ToLower name in
  match byName devices name with
  | Some d => Ok d
  | None => Err ("device not found: " ++ name)
  end.

End FindDeviceByName.

End devices.

(** ** Further vocabulary *)

Module terms.

Import player main.

(** [n] ticks in a row. *)
Definition ticks (n : nat) (state : appState) : appState := Nat.iter n tick state.

(** A metadata event whose payload decodes to [d]. *)
Definition Metadata (d : EventMetadata) (ev : Event) : Prop :=
  Type_ ev = "metadata" /\ json.Unmarshal (Data ev) = Some d.

(** The key sequences [handleKey] has a case for. *)
Definition arrow (c : byte) : list byte := [x1b; "["%byte; c].

Definition knownKeys : list (list byte) :=
  [["q"%byte]; [x03]; [" "%byte]; ["l"%byte]; arrow "C"%byte; ["h"%byte];
   arrow "D"%byte; ["k"%byte]; arrow "A"%byte; ["j"%byte]; arrow "B"%byte;
   ["s"%byte]; ["r"%byte]].

(** The items that end the loop: a signal, or the event channel closed. *)
Definition stops (item : Item) : Prop :=
  item = Signal \/ item = Recv None.

(** A view whose track is on screen. *)
Definition shown (state : appState) : Prop :=
  stopped state = false /\ trackName state <> "".

(** The float [1.0]. *)
Definition one : display.float64 := S754_finite false 4503599627370496 (-52).

(** An ASCII stand-in for [strings.ToLower], for the samples. *)
Fixpoint asciiLower (s : string) : string :=
  match s with
  | EmptyString => EmptyString
  | String c rest =>
      let n := nat_of_ascii c in
      String (if ((65 <=? n) && (n <=? 90))%nat then ascii_of_nat (n + 32) else c)
             (asciiLower rest)
  end.

(** Sample devices and listings. *)
Definition device (id name : string) (active : bool) : devices.Device :=
  {| devices.ID := id; devices.Name := name; devices.Type_ := "Speaker";
     devices.IsActive := active; devices.IsRestricted := false;
     devices.VolumePercent := 50; devices.SupportsVolume := true |}.

Definition listed (id name : string) (active : bool) : devices.PlayerDevice :=
  {| devices.PlayerDevice_ID := id; devices.PlayerDevice_Name := name;
     devices.PlayerDevice_Type := "Speaker"; devices.Active := active;
     devices.Restricted := false; devices.Volume := 50 |}.

End terms.

(** ** Vocabulary of the properties *)

Module view.

Import player main.

(** The type strings [applyEvent] has a case for. *)
Definition eventTypes : list string :=
  ["metadata"; "playing"; "paused"; "stopped"; "seek"; "volume";
   "shuffle_context"; "repeat_context"; "repeat_track"].

(** The payload of [ev] is the one its case of [applyEvent] decodes, and
    decoding it fails. *)
Definition undecodable (ev : Event) : Prop :=
  (Type_ ev = "metadata" /\ json.Unmarshal (Data ev) = (None : option EventMetadata))
  \/ (Type_ ev = "seek" /\ json.Unmarshal (Data ev) = (None : option EventSeek))
  \/ (Type_ ev = "volume" /\ json.Unmarshal (Data ev) = (None : option EventVolume))
  \/ (In (Type_ ev) ["shuffle_context"; "repeat_context"; "repeat_track"]
      /\ json.Unmarshal (Data ev) = (None : option EventBool)).

Definition malformed (ev : Event) : Prop :=
  ~ In (Type_ ev) eventTypes \/ undecodable ev.

(** The push events that carry the updates of the specification. *)
Definition SeekTo (position duration : Z) (ev : Event) : Prop :=
  Type_ ev = "seek"
  /\ json.Unmarshal (Data ev)
     = Some {| Seek_Position := position; Seek_Duration := duration |}.

Definition RepeatContextSet (b : bool) (ev : Event) : Prop :=
  Type_ ev = "repeat_context"
  /\ json.Unmarshal (Data ev) = Some {| Bool_Value := b |}.

Definition RepeatTrackSet (b : bool) (ev : Event) : Prop :=
  Type_ ev = "repeat_track"
  /\ json.Unmarshal (Data ev) = Some {| Bool_Value := b |}.

(** [0 <= progress <= duration] *)
Definition withinTrack (state : appState) : Prop :=
  0 <= progress state <= duration state.

(** A position and a duration in milliseconds that, stored as
    [time.Duration]s, are ordered and leave room for one more second. *)
Definition ordered (position duration : Z) : Prop :=
  0 <= ms position <= ms duration /\ ms duration <= MaxInt64 - time.Second.

(** Every metadata or seek payload that decodes is [ordered]. *)
Definition reportsOrdered (item : Item) : Prop :=
  match item with
  | Recv (Some ev) =>
      (Type_ ev = "metadata" ->
       forall d : EventMetadata, json.Unmarshal (Data ev) = Some d ->
         ordered (Position d) (Duration d))
      /\ (Type_ ev = "seek" ->
          forall d : EventSeek, json.Unmarshal (Data ev) = Some d ->
            ordered (Seek_Position d) (Seek_Duration d))
  | _ => True
  end.

Definition statusOrdered (status : option Status) : Prop :=
  match status with
  | Some {| Track_ := Some track |} => ordered 0 (Track_Duration track)
  | _ => True
  end.

(** The bound, with room left for the next tick: the invariant of the
    loop. *)
Definition roomy (state : appState) : Prop :=
  withinTrack state /\ duration state <= MaxInt64 - time.Second.

Definition percent (v : Z) : Prop := 0 <= v <= 100.

(** Every volume payload that decodes reports a value in [0,100]. *)
Definition reportsPercent (item : Item) : Prop :=
  match item with
  | Recv (Some ev) =>
      Type_ ev = "volume" ->
      forall d : EventVolume, json.Unmarshal (Data ev) = Some d ->
        percent (Volume_Value d)
  | _ => True
  end.

Definition statusPercent (status : option Status) : Prop :=
  match status with
  | Some s => percent (Volume s)
  | None => True
  end.

Definition panics {A} (r : option A) : bool :=
  match r with
  | None => true
  | Some _ => false
  end.

(** The state a run leaves, and what it tells the loop. *)
Definition stateOf (r : (Control * appState) * list Request) : appState :=
  snd (fst r).

Definition controlOf (r : (Control * appState) * list Request) : Control :=
  fst (fst r).

End view.

(** ** Sample inputs *)

Module sample.

Import json player.

Definition event (type : string) (members : list (string * Value)) : Event :=
  {| Type_ := type; Data := Some (Object members) |}.

Definition int (n : Z) : Value := Number (Some n).

Definition metadata (name : string) (position duration : Z) : Event :=
  event "metadata"
    [("uri", Str "spotify:track:1"); ("name", Str name);
     ("artist_names", Array [Str "A"; Str "B"]); ("album_name", Str "LP");
     ("album_cover_url", Str ""); ("position", int position);
     ("duration", int duration)].

Definition seek (position duration : Z) : Event :=
  event "seek" [("position", int position); ("duration", int duration)].

Definition volume (value : Z) : Event :=
  event "volume" [("value", int value); ("max", int 100)].

Definition flag (type : string) (b : bool) : Event :=
  event type [("value", Bool b)].

Definition bare (type : string) : Event :=
  {| Type_ := type; Data := None |}.

(** A daemon that accepts every request, and one that fails them all. *)
Definition up : Client := {| post := fun _ => None |}.
Definition down : Client := {| post := fun _ => Some "connection refused" |}.

Definition status (volume : Z) (track : option Track) : Status :=
  {| Stopped := false; Paused := true; Buffering := false; Volume := volume;
     VolumeSteps := 100; RepeatContext := true; RepeatTrack := false;
     ShuffleContext := true; Track_ := track |}.

Definition track (name : string) (duration : Z) : Track :=
  {| Track_URI := "spotify:track:2"; Track_Name := name;
     Track_ArtistNames := ["C"]; Track_AlbumName := "EP";
     Track_AlbumCover := ""; Track_Duration := duration |}.

Definition space : list byte := [" "%byte].
Definition r : list byte := ["r"%byte].
Definition k : list byte := ["k"%byte].
Definition down_arrow : list byte := [x1b; "["%byte; "B"%byte].

End sample.

(** * Properties *)

Import player main view.

(** Splits a conjunction into its parts, and nothing else. *)
Ltac conjuncts := repeat match goal with |- _ /\ _ => split end.

(** ** Arithmetic of [int64] *)

Lemma wrap64_exact (z : Z) : MinInt64 <= z <= MaxInt64 -> wrap64 z = z.
Proof.
  unfold wrap64, MinInt64, MaxInt64. intros H.
  rewrite Z.mod_small; lia.
Qed.

Lemma add_exact (a b : time.Duration) :
  MinInt64 <= a + b <= MaxInt64 -> time.add a b = a + b.
Proof. apply wrap64_exact. Qed.

Lemma min_spec (a b : Z) : min a b = Z.min a b.
Proof. unfold min. destruct (Z.ltb_spec a b); lia. Qed.

Lemma max_spec (a b : Z) : max a b = Z.max a b.
Proof. unfold max. rewrite Z.gtb_ltb. destruct (Z.ltb_spec b a); lia. Qed.

(** ** The timer tick *)

Lemma tick_playing (st : appState) :
  isPlaying st = true -> stopped st = false ->
  tick st = set_progress st (Z.min (time.add (progress st) time.Second) (duration st)).
Proof.
  intros Hplay Hstop. unfold tick. rewrite Hplay, Hstop. cbn [andb negb].
  cbn [set_progress progress duration].
  rewrite Z.gtb_ltb.
  destruct (Z.ltb_spec (duration st) (time.add (progress st) time.Second)) as [Hlt | Hge].
  - rewrite Z.min_r by lia. destruct st; reflexivity.
  - rewrite Z.min_l by lia. reflexivity.
Qed.

Lemma tick_idle (st : appState) :
  isPlaying st = false \/ stopped st = true -> tick st = st.
Proof.
  intros [Hpause | Hstop]; unfold tick.
  - rewrite Hpause. reflexivity.
  - rewrite Hstop, andb_false_r. reflexivity.
Qed.

Lemma add_second_exact (p : time.Duration) :
  MinInt64 <= p <= MaxInt64 - time.Second ->
  time.add p time.Second = p + 1000000000.
Proof.
  intros Hfit. apply add_exact.
  unfold time.Second, MinInt64, MaxInt64 in *. lia.
Qed.

(** C5, as the code has it.  A tick of a view that is playing and not
    stopped, whose [progress] is at most [MaxInt64] less one second (so
    that [state.progress += time.Second] does not leave [int64]), sets
    [progress] to [min (progress + 1 s) duration] and changes no other
    field.  A tick of any view that is paused or stopped changes
    nothing. *)
Theorem tick_advances_clamped (st : appState) :
  (isPlaying st = true -> stopped st = false ->
   MinInt64 <= progress st <= MaxInt64 - time.Second ->
   tick st = set_progress st (Z.min (progress st + time.Second) (duration st)))
  /\ (isPlaying st = false \/ stopped st = true -> tick st = st).
Proof.
  split.
  - intros Hplay Hstop Hfit.
    rewrite (tick_playing st Hplay Hstop), (add_second_exact _ Hfit).
    reflexivity.
  - apply tick_idle.
Qed.

Lemma tick_advances_clamped_witness :
  let playing := set_isPlaying (applyEvent initial (sample.seek 199500 200000)) true in
  let paused := applyEvent initial (sample.seek 90000 200000) in
  progress (tick playing) = 200000000000
  /\ progress (tick (set_progress playing 90000000000)) = 91000000000
  /\ tick paused = paused
  /\ tick (set_stopped playing true) = set_stopped playing true.
Proof.
  intros playing paused.
  destruct (tick_advances_clamped playing) as [Hrun _].
  destruct (tick_advances_clamped (set_progress playing 90000000000)) as [Hrun' _].
  destruct (tick_advances_clamped paused) as [_ Hidle].
  destruct (tick_advances_clamped (set_stopped playing true)) as [_ Hidle'].
  assert (Hfit : MinInt64 <= progress playing <= MaxInt64 - time.Second)
    by (vm_compute; split; discriminate).
  assert (Hfit' : MinInt64 <= progress (set_progress playing 90000000000)
                  <= MaxInt64 - time.Second)
    by (vm_compute; split; discriminate).
  conjuncts.
  - rewrite (Hrun eq_refl eq_refl Hfit). reflexivity.
  - rewrite (Hrun' eq_refl eq_refl Hfit'). reflexivity.
  - apply Hidle. left. reflexivity.
  - apply Hidle'. right. reflexivity.
Defined.

(** C5 as stated fails at the far end of [int64].  After a seek to
    9223372036854 ms of as long a track and a playing event, both taken by
    [main], the view is playing with [progress = duration]; the next tick
    does not leave [progress] at [min (progress + 1 s) duration], which is
    the duration: the sum wraps and [progress] is below zero. *)
Lemma tick_wraps_at_the_far_end :
  let far := 9223372036854 in
  let before :=
    stateOf (main.main None [Recv (Some (sample.seek far far));
                             Recv (Some (sample.bare "playing"))] sample.up) in
  let run :=
    main.main None [Recv (Some (sample.seek far far));
                    Recv (Some (sample.bare "playing")); Tick] sample.up in
  isPlaying before = true /\ stopped before = false
  /\ progress before = far * time.Millisecond
  /\ duration before = far * time.Millisecond
  /\ controlOf run = Continue
  /\ stateOf run = tick before
  /\ progress (tick before) = far * time.Millisecond + time.Second - 2 ^ 64
  /\ progress (tick before) < 0
  /\ progress (tick before)
     <> Z.min (progress before + time.Second) (duration before).
Proof.
  cbv zeta. conjuncts; try (vm_compute; reflexivity).
  vm_compute. discriminate.
Qed.

(** ** Repeat mode *)

(** C6. A context-repeat event with value true sets [repeat] to
    "context" and a track-repeat event with value true sets it to "track";
    with value false either event resets [repeat] to "off" only when the
    view is in that event's own mode and is otherwise a no-op; no other
    field changes.  From "off", context-repeat true followed by
    track-repeat true leaves "track". *)
Theorem repeat_events (st : appState) (ctxOn ctxOff trkOn trkOff : Event) :
  RepeatContextSet true ctxOn -> RepeatContextSet false ctxOff ->
  RepeatTrackSet true trkOn -> RepeatTrackSet false trkOff ->
  applyEvent st ctxOn = set_repeat st "context"
  /\ applyEvent st trkOn = set_repeat st "track"
  /\ (repeat st = "context" -> applyEvent st ctxOff = set_repeat st "off")
  /\ (repeat st <> "context" -> applyEvent st ctxOff = st)
  /\ (repeat st = "track" -> applyEvent st trkOff = set_repeat st "off")
  /\ (repeat st <> "track" -> applyEvent st trkOff = st)
  /\ (repeat st = "off" -> repeat (applyEvent (applyEvent st ctxOn) trkOn) = "track").
Proof.
  intros [Tc Dc] [Tc' Dc'] [Tt Dt] [Tt' Dt'].
  assert (Hc : forall s, applyEvent s ctxOn = set_repeat s "context").
  { intros s. unfold applyEvent. rewrite Tc. cbn. rewrite Dc. reflexivity. }
  assert (Ht : forall s, applyEvent s trkOn = set_repeat s "track").
  { intros s. unfold applyEvent. rewrite Tt. cbn. rewrite Dt. reflexivity. }
  conjuncts.
  - apply Hc.
  - apply Ht.
  - intros Hmode. unfold applyEvent. rewrite Tc'. cbn. rewrite Dc'. cbn.
    rewrite Hmode. reflexivity.
  - intros Hmode. unfold applyEvent. rewrite Tc'. cbn. rewrite Dc'. cbn.
    apply String.eqb_neq in Hmode. rewrite Hmode. reflexivity.
  - intros Hmode. unfold applyEvent. rewrite Tt'. cbn. rewrite Dt'. cbn.
    rewrite Hmode. reflexivity.
  - intros Hmode. unfold applyEvent. rewrite Tt'. cbn. rewrite Dt'. cbn.
    apply String.eqb_neq in Hmode. rewrite Hmode. reflexivity.
  - intros _. rewrite Ht. reflexivity.
Qed.

Lemma repeat_events_witness :
  let ctxOn := sample.flag "repeat_context" true in
  let ctxOff := sample.flag "repeat_context" false in
  let trkOn := sample.flag "repeat_track" true in
  let trkOff := sample.flag "repeat_track" false in
  repeat (applyEvent initial ctxOn) = "context"
  /\ applyEvent initial trkOff = initial
  /\ applyEvent (set_repeat initial "context") trkOff = set_repeat initial "context"
  /\ repeat (applyEvent (set_repeat initial "context") ctxOff) = "off"
  /\ repeat (applyEvent (applyEvent initial ctxOn) trkOn) = "track".
Proof.
  intros ctxOn ctxOff trkOn trkOff.
  assert (Hc : RepeatContextSet true ctxOn) by (split; reflexivity).
  assert (Hc' : RepeatContextSet false ctxOff) by (split; reflexivity).
  assert (Ht : RepeatTrackSet true trkOn) by (split; reflexivity).
  assert (Ht' : RepeatTrackSet false trkOff) by (split; reflexivity).
  destruct (repeat_events initial ctxOn ctxOff trkOn trkOff Hc Hc' Ht Ht')
    as [H1 [_ [_ [_ [_ [H6 H7]]]]]].
  destruct (repeat_events (set_repeat initial "context") ctxOn ctxOff trkOn trkOff
              Hc Hc' Ht Ht') as [_ [_ [H3 [_ [_ [H6' _]]]]]].
  conjuncts.
  - rewrite H1. reflexivity.
  - apply H6. discriminate.
  - apply H6'. discriminate.
  - rewrite H3; reflexivity.
  - apply H7. reflexivity.
Defined.

(** C9. Pressing [r] three times from a view whose repeat mode is "off"
    goes through "context" and "track" and is back at "off", with the
    view as it was; the handler never asks to quit on the way, and it
    issues the matching repeat requests whatever the daemon answers. *)
Theorem cycleRepeat_three_times (st : appState) (pc : Client) :
  repeat st = "off" ->
  let r1 := handleKey sample.r st pc in
  let r2 := handleKey sample.r (snd (fst r1)) pc in
  let r3 := handleKey sample.r (snd (fst r2)) pc in
  fst r1 = (false, set_repeat st "context")
  /\ fst r2 = (false, set_repeat st "track")
  /\ fst r3 = (false, st)
  /\ (snd r1 ++ snd r2 ++ snd r3)%list
     = [SetRepeatContext true; SetRepeatContext false; SetRepeatTrack true;
        SetRepeatTrack false].
Proof.
  intros Hoff.
  assert (H1 : handleKey sample.r st pc
               = ((false, set_repeat st "context"), [SetRepeatContext true])).
  { cbv [handleKey cycleRepeat sample.r bind call ret is1 isArrow Byte.eqb].
    cbn. rewrite Hoff. reflexivity. }
  assert (H2 : handleKey sample.r (set_repeat st "context") pc
               = ((false, set_repeat st "track"),
                  [SetRepeatContext false; SetRepeatTrack true])).
  { destruct st; reflexivity. }
  assert (H3 : handleKey sample.r (set_repeat st "track") pc
               = ((false, st), [SetRepeatTrack false])).
  { destruct st; cbn in Hoff; subst; reflexivity. }
  cbv zeta. rewrite H1. cbn [fst snd]. rewrite H2. cbn [fst snd]. rewrite H3.
  conjuncts; reflexivity.
Qed.

Lemma cycleRepeat_three_times_witness :
  let st := applyEvent initial (sample.metadata "Song" 0 200000) in
  let press (s : appState) := snd (fst (handleKey sample.r s sample.down)) in
  repeat st = "off"
  /\ repeat (press st) = "context"
  /\ repeat (press (press st)) = "track"
  /\ press (press (press st)) = st.
Proof.
  intros st press.
  assert (Hoff : repeat st = "off") by reflexivity.
  destruct (cycleRepeat_three_times st sample.down Hoff) as [H1 [H2 [H3 _]]].
  split; [exact Hoff |].
  unfold press. rewrite H1. cbn [fst snd].
  conjuncts; reflexivity.
Defined.

(** ** Play and pause *)

(** C7. The space key flips [isPlaying] at once and issues the play/pause
    request; what the request returns is not looked at.  A "paused" event
    that comes next sets [isPlaying] to false, whichever way the key had
    flipped it, and touches nothing else. *)
Theorem toggle_then_paused (st : appState) (pc : Client) (ev : Event) :
  Type_ ev = "paused" ->
  handleKey sample.space st pc
    = ((false, set_isPlaying st (negb (isPlaying st))), [PlayPause])
  /\ applyEvent (snd (fst (handleKey sample.space st pc))) ev
     = set_isPlaying st false.
Proof.
  intros Hty.
  assert (Hkey : handleKey sample.space st pc
                 = ((false, set_isPlaying st (negb (isPlaying st))), [PlayPause]))
    by reflexivity.
  split; [exact Hkey |].
  rewrite Hkey. cbn [fst snd]. unfold applyEvent. rewrite Hty. cbn.
  destruct st; reflexivity.
Qed.

Lemma toggle_then_paused_witness :
  let paused := initial in
  let playing := set_isPlaying initial true in
  let ev := sample.bare "paused" in
  let press pc (s : appState) := snd (fst (handleKey sample.space s pc)) in
  isPlaying (press sample.up paused) = true
  /\ isPlaying (press sample.down paused) = true
  /\ isPlaying (press sample.down playing) = false
  /\ isPlaying (applyEvent (press sample.down paused) ev) = false
  /\ isPlaying (applyEvent (press sample.up playing) ev) = false.
Proof.
  intros paused playing ev press.
  assert (Hty : Type_ ev = "paused") by reflexivity.
  destruct (toggle_then_paused paused sample.up ev Hty) as [K1 _].
  destruct (toggle_then_paused paused sample.down ev Hty) as [K2 P2].
  destruct (toggle_then_paused playing sample.down ev Hty) as [K3 _].
  destruct (toggle_then_paused playing sample.up ev Hty) as [_ P4].
  unfold press. rewrite K1, K3, P2, P4, K2. conjuncts; reflexivity.
Defined.

(** ** Seek *)

Lemma applyEvent_seek (st : appState) (ev : Event) (position duration : Z) :
  SeekTo position duration ev ->
  applyEvent st ev = set_duration (set_progress st (ms position)) (ms duration).
Proof.
  intros [Hty Hdec]. unfold applyEvent. rewrite Hty. cbn. rewrite Hdec. reflexivity.
Qed.

(** C8, as the code has it.  A seek event stores the reported position
    and duration, converted from milliseconds, in [progress] and
    [duration] whatever they held, and leaves the other fields alone.
    After a seek to 90000 ms of 200000 ms, two ticks leave
    [progress] at 92000 ms when the view is playing and not stopped, and
    at 90000 ms otherwise. *)
Theorem seek_overwrites_then_ticks (st : appState) (ev : Event) (position duration : Z) :
  SeekTo position duration ev ->
  applyEvent st ev = set_duration (set_progress st (ms position)) (ms duration)
  /\ (position = 90000 /\ duration = 200000 ->
      progress (tick (tick (applyEvent st ev)))
      = if isPlaying st && negb (stopped st)
        then 92000 * time.Millisecond
        else 90000 * time.Millisecond).
Proof.
  intros Hseek. split.
  - apply applyEvent_seek, Hseek.
  - intros [-> ->]. rewrite (applyEvent_seek st ev _ _ Hseek).
    destruct st as [tn an al du pr pl sh re vo stp].
    destruct pl, stp; reflexivity.
Qed.

Lemma seek_overwrites_then_ticks_witness :
  let ev := sample.seek 90000 200000 in
  let st := set_isPlaying (applyEvent initial (sample.metadata "Song" 1000 200000)) true in
  progress (tick (tick st)) = 3000 * time.Millisecond
  /\ progress (applyEvent (tick (tick st)) ev) = 90000 * time.Millisecond
  /\ duration (applyEvent (tick (tick st)) ev) = 200000 * time.Millisecond
  /\ progress (tick (tick (applyEvent (tick (tick st)) ev))) = 92000 * time.Millisecond.
Proof.
  intros ev st.
  assert (Hseek : SeekTo 90000 200000 ev) by (split; reflexivity).
  destruct (seek_overwrites_then_ticks (tick (tick st)) ev 90000 200000 Hseek)
    as [Hset Hticks].
  split; [reflexivity |].
  rewrite (Hticks (conj eq_refl eq_refl)), Hset.
  conjuncts; reflexivity.
Defined.

(** C8 as stated fails on a view that is not playing: from the initial
    view, the seek followed by two ticks leaves 90000 ms. *)
Lemma seek_then_ticks_paused :
  let ev := sample.seek 90000 200000 in
  SeekTo 90000 200000 ev
  /\ progress (tick (tick (applyEvent initial ev))) = 90000 * time.Millisecond
  /\ progress (tick (tick (applyEvent initial ev))) <> 92000 * time.Millisecond.
Proof.
  intros ev. split; [split; reflexivity |]. split; [reflexivity |].
  vm_compute. discriminate.
Qed.

(** ** Malformed messages *)

Lemma Start_skips (before after : list Read) (msg : json.Text) :
  json.Unmarshal msg = (None : option Event) ->
  Start (before ++ ReadMsg msg :: after) = Start (before ++ after).
Proof.
  intros Hbad. induction before as [| r before IH].
  - cbn [app Start]. rewrite Hbad. reflexivity.
  - cbn [app Start]. destruct r as [| m]; [reflexivity |].
    destruct (json.Unmarshal m : option Event); rewrite IH; reflexivity.
Qed.

Lemma applyEvent_unknown (st : appState) (ev : Event) :
  ~ In (Type_ ev) eventTypes -> applyEvent st ev = st.
Proof.
  intros Hnot.
  assert (Hne : forall t, In t eventTypes -> (Type_ ev == t) = false).
  { intros t Hin. apply String.eqb_neq. intros Heq. apply Hnot. rewrite Heq. exact Hin. }
  unfold applyEvent.
  rewrite !Hne by (unfold eventTypes; cbn [In]; tauto).
  reflexivity.
Qed.

Lemma applyEvent_undecodable (st : appState) (ev : Event) :
  undecodable ev -> applyEvent st ev = st.
Proof.
  intros [[Hty Hdec] | [[Hty Hdec] | [[Hty Hdec] | [Hin Hdec]]]]; unfold applyEvent.
  - rewrite Hty. cbn. rewrite Hdec. reflexivity.
  - rewrite Hty. cbn. rewrite Hdec. reflexivity.
  - rewrite Hty. cbn. rewrite Hdec. reflexivity.
  - cbn [In] in Hin. destruct Hin as [Hty | [Hty | [Hty | []]]];
      rewrite <- Hty; cbn; rewrite Hdec; reflexivity.
Qed.

Lemma applyEvent_malformed (st : appState) (ev : Event) :
  malformed ev -> applyEvent st ev = st.
Proof.
  intros [Hunknown | Hbad].
  - apply applyEvent_unknown, Hunknown.
  - apply applyEvent_undecodable, Hbad.
Qed.

(** C10. A message that does not decode into an [Event] is skipped by
    the reader, which goes on with the reads that follow and sends
    exactly the events it would have sent without it.  An event whose
    type string has no case, or whose payload does not decode in its
    case, leaves the view as it is; the loop of [main] draws the
    unchanged view and goes on to the next item. *)
Theorem malformed_messages_dropped
  (before after : list Read) (msg : json.Text)
  (st : appState) (ev : Event) (rest : list Item) (pc : Client) :
  json.Unmarshal msg = (None : option Event) ->
  malformed ev ->
  Start (before ++ ReadMsg msg :: after) = Start (before ++ after)
  /\ applyEvent st ev = st
  /\ step st (Recv (Some ev)) pc = ((rendered st, st), [])
  /\ loop st (Recv (Some ev) :: rest) pc
     = match rendered st with
       | Continue => loop st rest pc
       | stop => ((stop, st), [])
       end.
Proof.
  intros Hmsg Hev.
  pose proof (applyEvent_malformed st ev Hev) as Hsame.
  assert (Hstep : step st (Recv (Some ev)) pc = ((rendered st, st), [])).
  { unfold step, ret. rewrite Hsame. reflexivity. }
  conjuncts.
  - apply Start_skips, Hmsg.
  - exact Hsame.
  - exact Hstep.
  - cbn [loop]. unfold bind. rewrite Hstep.
    destruct (rendered st); try reflexivity.
    destruct (loop st rest pc) as [r sent]. reflexivity.
Qed.

Lemma malformed_messages_dropped_witness :
  let good := ReadMsg (Some (json.Object [("type", json.Str "paused")])) in
  let garbled := None in
  let mistyped := Some (json.Object [("type", json.Number (Some 7))]) in
  let st := applyEvent initial (sample.metadata "Song" 1000 200000) in
  let future := sample.event "queue_changed" [("size", sample.int 3)] in
  let badSeek := sample.event "seek" [("position", json.Str "soon")] in
  let noVolume := sample.bare "volume" in
  Start [good; ReadMsg garbled; good] = Start [good; good]
  /\ Start [ReadMsg mistyped; good] = Start [good]
  /\ applyEvent st future = st
  /\ applyEvent st badSeek = st
  /\ applyEvent st noVolume = st
  /\ stateOf (loop st [Recv (Some badSeek); Tick] sample.up) = stateOf (loop st [Tick] sample.up).
Proof.
  intros good garbled mistyped st future badSeek noVolume.
  assert (Hg : json.Unmarshal garbled = (None : option Event)) by reflexivity.
  assert (Hm : json.Unmarshal mistyped = (None : option Event)) by reflexivity.
  assert (Hfuture : malformed future).
  { left. cbn. intros H. repeat destruct H as [H | H]; try discriminate H. exact H. }
  assert (HbadSeek : malformed badSeek).
  { right. right. left. split; reflexivity. }
  assert (HnoVolume : malformed noVolume).
  { right. right. right. left. split; reflexivity. }
  destruct (malformed_messages_dropped [good] [good] garbled st future [] sample.up Hg Hfuture)
    as [S1 [A1 _]].
  destruct (malformed_messages_dropped [] [good] mistyped st badSeek [Tick] sample.up Hm HbadSeek)
    as [S2 [A2 [_ L2]]].
  destruct (malformed_messages_dropped [] [] garbled st noVolume [] sample.up Hg HnoVolume)
    as [_ [A3 _]].
  conjuncts.
  - exact S1.
  - exact S2.
  - exact A1.
  - exact A2.
  - exact A3.
  - rewrite L2. reflexivity.
Defined.

(** ** The progress bar *)

(** C3, where the code departs from it.  With [current = total], not
    zero, [filled] is [width] and the second [strings.Repeat] is called
    with [width - filled - 1 = -1]: [CreateProgressBar] panics.  This is so
    for every width from 1 to 120 at some usual track lengths, and it is
    what ends [main] when the ticks of a playing track reach its
    duration. *)
Theorem CreateProgressBar_panics_at_track_end :
  display.CreateProgressBar (ms 2000) (ms 2000) 50 = None
  /\ forallb (fun total =>
       forallb (fun width =>
         panics (display.CreateProgressBar (ms total) (ms total) (Z.of_nat width)))
         (seq 1 120))
       [1; 999; 2000; 200000; 3599999] = true
  /\ main.main None
       [Recv (Some (sample.metadata "Song" 0 2000));
        Recv (Some (sample.bare "playing")); Tick; Tick] sample.up
     = ((Panic,
         {| trackName := "Song"; artistNames := "A, B"; albumName := "LP";
            duration := ms 2000; progress := ms 2000; isPlaying := true;
            shuffle := false; repeat := "off"; volume := 0; stopped := false |}),
        []).
Proof.
  conjuncts; vm_compute; reflexivity.
Qed.

(** ** The snapshot *)

Lemma TruncateString_60 (s : string) : display.TruncateString s 60 <> None.
Proof.
  unfold display.TruncateString. cbv zeta.
  destruct (Z.leb_spec (Z.of_nat (String.length s)) 60) as [Hshort | Hlong];
    [discriminate |].
  change (wrap64 (60 - 3)) with 57.
  destruct (Z.ltb_spec (Z.of_nat (String.length s)) 57); [lia |].
  cbn. discriminate.
Qed.

(** At [current = 0] the bar is drawn, whatever the total. *)
Lemma CreateProgressBar_at_start (total : time.Duration) :
  display.CreateProgressBar 0 total 50 <> None.
Proof.
  unfold display.CreateProgressBar.
  destruct (total =? 0); [vm_compute; discriminate |].
  destruct (display.ofInt total) as [sg | sg | | sg m e]; vm_compute; try discriminate.
  all: destruct sg; discriminate.
Qed.

Lemma rendered_at_start (st : appState) : progress st = 0 -> rendered st = Continue.
Proof.
  intros Hzero. unfold rendered, render.
  destruct (stopped st || (trackName st == "")); [reflexivity |].
  unfold display.DisplayCurrentTrack. cbn [display.Name display.Artist display.Album
    display.Progress display.Duration]. rewrite Hzero.
  pose proof (TruncateString_60 (trackName st)) as H1.
  pose proof (TruncateString_60 (artistNames st)) as H2.
  pose proof (TruncateString_60 (albumName st)) as H3.
  pose proof (CreateProgressBar_at_start (duration st)) as H4.
  destruct (display.TruncateString (trackName st) 60); [| contradiction].
  destruct (display.TruncateString (artistNames st) 60); [| contradiction].
  destruct (display.TruncateString (albumName st) 60); [| contradiction].
  destruct (display.CreateProgressBar 0 (duration st) 50); [| contradiction].
  reflexivity.
Qed.

Lemma applyStatus_progress (st : appState) (s : Status) :
  progress (applyStatus st s) = progress st.
Proof.
  unfold applyStatus.
  destruct (Track_ s), (RepeatTrack s), (RepeatContext s); reflexivity.
Qed.

(** C2, as the code has it.  [applyStatus] overwrites [isPlaying],
    [stopped], [shuffle], [volume] and [repeat] from the status; it
    overwrites the track name, artists, album and duration only when the
    status carries a track, and it never writes [progress].  It has no
    guard: it is applied to whatever view it is given.  [main] applies it
    once, to the initial view, before any item is taken from the loop. *)
Theorem applyStatus_writes (st : appState) (s : Status) (items : list Item) (pc : Client) :
  let st' := applyStatus st s in
  isPlaying st' = negb (Paused s) && negb (Stopped s)
  /\ stopped st' = Stopped s
  /\ shuffle st' = ShuffleContext s
  /\ volume st' = Volume s
  /\ repeat st' = (if RepeatTrack s then "track"
                   else if RepeatContext s then "context" else "off")
  /\ progress st' = progress st
  /\ match Track_ s with
     | Some track =>
         trackName st' = Track_Name track
         /\ artistNames st' = joinStrings (Track_ArtistNames track)
         /\ albumName st' = Track_AlbumName track
         /\ duration st' = ms (Track_Duration track)
     | None =>
         trackName st' = trackName st
         /\ artistNames st' = artistNames st
         /\ albumName st' = albumName st
         /\ duration st' = duration st
     end
  /\ main.main (Some s) items pc = loop (applyStatus initial s) items pc.
Proof.
  cbv zeta. conjuncts.
  1-5: unfold applyStatus;
       destruct (Track_ s), (RepeatTrack s), (RepeatContext s); reflexivity.
  - apply applyStatus_progress.
  - unfold applyStatus.
    destruct (Track_ s) as [track |]; destruct (RepeatTrack s), (RepeatContext s);
      conjuncts; reflexivity.
  - unfold main.main, seed.
    rewrite rendered_at_start by (rewrite applyStatus_progress; reflexivity).
    reflexivity.
Qed.

(** C2 as stated fails.  Once a metadata event and five ticks have
    established a track, a snapshot is not rejected: it changes the view.
    Nor is it a wholesale replacement: [progress] is kept, so two views
    that differ in it still differ after the same snapshot, and a snapshot
    without a track keeps the track fields as well. *)
Lemma applyStatus_neither_guarded_nor_wholesale :
  let live := set_isPlaying (applyEvent initial (sample.metadata "Song" 0 200000)) true in
  let st := tick (tick (tick (tick (tick live)))) in
  let s := sample.status 40 (Some (sample.track "Other" 1000)) in
  let s' := sample.status 40 None in
  trackName st = "Song"
  /\ progress st = 5000 * time.Millisecond
  /\ applyStatus st s <> st
  /\ progress (applyStatus st s) = 5000 * time.Millisecond
  /\ applyStatus st s <> applyStatus initial s
  /\ trackName (applyStatus st s') = "Song".
Proof.
  intros live st s s'. conjuncts; try reflexivity.
  - intros H. apply (f_equal trackName) in H. vm_compute in H. discriminate H.
  - intros H. apply (f_equal progress) in H. vm_compute in H. discriminate H.
Qed.

(** ** Invariants of the loop *)

Lemma Forall_prefix {A} (Q : A -> Prop) (n : nat) (l : list A) :
  Forall Q l -> Forall Q (firstn n l).
Proof.
  intros H. revert n. induction H as [| x l Hx Hl IH]; intros [| n]; cbn; auto.
Qed.

(** A property kept by every iteration is kept by the loop, however it
    ends. *)
Lemma loop_invariant (P : appState -> Prop) (Q : Item -> Prop) :
  (forall st item pc, P st -> Q item -> P (stateOf (step st item pc))) ->
  forall items st pc, P st -> Forall Q items -> P (stateOf (loop st items pc)).
Proof.
  intros Hstep items. induction items as [| item rest IH]; intros st pc HP HQ.
  - exact HP.
  - inversion HQ as [| ? ? Hitem Hrest]; subst.
    specialize (Hstep st item pc HP Hitem).
    cbn [loop]. unfold bind.
    destruct (step st item pc) as [[c st'] sent]. unfold stateOf in Hstep. cbn in Hstep.
    destruct c.
    + specialize (IH st' pc Hstep Hrest).
      destruct (loop st' rest pc) as [[c2 st2] sent2]. exact IH.
    + exact Hstep.
    + exact Hstep.
Qed.

Lemma main_invariant (P : appState -> Prop) (Q : Item -> Prop) :
  (forall st item pc, P st -> Q item -> P (stateOf (step st item pc))) ->
  forall status items pc,
    P (seed status) -> Forall Q items -> P (stateOf (main.main status items pc)).
Proof.
  intros Hstep status items pc HP HQ. unfold main.main.
  destruct (rendered (seed status)); [| exact HP | exact HP].
  apply (loop_invariant P Q Hstep); assumption.
Qed.

(** What a key leaves alone, and what it does to the volume. *)
Lemma handleKey_effect (key : list byte) (st : appState) (pc : Client) :
  let st' := snd (fst (handleKey key st pc)) in
  progress st' = progress st
  /\ duration st' = duration st
  /\ (volume st' = volume st
      \/ volume st' = min 100 (wrap64 (volume st + 5))
      \/ volume st' = max 0 (wrap64 (volume st - 5))).
Proof.
  destruct st as [tn an al du pr pl sh re vo stp].
  unfold handleKey, cycleRepeat, bind, call, ret.
  repeat match goal with
         | |- context [if ?b then _ else _] => destruct b
         end; cbn; auto.
Qed.

Lemma tick_volume (st : appState) : volume (tick st) = volume st.
Proof.
  unfold tick. destruct (isPlaying st && negb (stopped st)); [| reflexivity].
  cbn [set_progress progress duration].
  destruct (_ >? _); reflexivity.
Qed.

Lemma tick_roomy (st : appState) : roomy st -> roomy (tick st).
Proof.
  unfold roomy, withinTrack. intros [[H0 Hle] Hroom].
  destruct (isPlaying st) eqn:Hplay, (stopped st) eqn:Hstop;
    try (rewrite tick_idle by auto; auto).
  rewrite (tick_playing st Hplay Hstop).
  rewrite add_second_exact
    by (unfold MinInt64; unfold time.Second, MaxInt64 in *; lia).
  destruct st; cbn in *. lia.
Qed.

Lemma applyEvent_roomy (st : appState) (ev : Event) :
  roomy st -> reportsOrdered (Recv (Some ev)) -> roomy (applyEvent st ev).
Proof.
  intros Hst [Hmeta Hseek]. unfold applyEvent.
  destruct (Type_ ev == "metadata") eqn:E1.
  { apply String.eqb_eq in E1. specialize (Hmeta E1).
    destruct (json.Unmarshal (Data ev) : option EventMetadata) as [d |]; [| exact Hst].
    specialize (Hmeta d eq_refl). destruct st; exact Hmeta. }
  destruct (Type_ ev == "playing"); [destruct st; exact Hst |].
  destruct (Type_ ev == "paused"); [destruct st; exact Hst |].
  destruct (Type_ ev == "stopped"); [destruct st; exact Hst |].
  destruct (Type_ ev == "seek") eqn:E5.
  { apply String.eqb_eq in E5. specialize (Hseek E5).
    destruct (json.Unmarshal (Data ev) : option EventSeek) as [d |]; [| exact Hst].
    specialize (Hseek d eq_refl). destruct st; exact Hseek. }
  destruct (Type_ ev == "volume").
  { destruct (json.Unmarshal (Data ev) : option EventVolume); destruct st; exact Hst. }
  destruct (Type_ ev == "shuffle_context").
  { destruct (json.Unmarshal (Data ev) : option EventBool); destruct st; exact Hst. }
  destruct (Type_ ev == "repeat_context").
  { destruct (json.Unmarshal (Data ev) : option EventBool) as [[[|]] |];
      [| destruct (repeat st == "context") |]; destruct st; exact Hst. }
  destruct (Type_ ev == "repeat_track").
  { destruct (json.Unmarshal (Data ev) : option EventBool) as [[[|]] |];
      [| destruct (repeat st == "track") |]; destruct st; exact Hst. }
  exact Hst.
Qed.

Lemma step_roomy (st : appState) (item : Item) (pc : Client) :
  roomy st -> reportsOrdered item -> roomy (stateOf (step st item pc)).
Proof.
  intros Hst Hitem. destruct item as [| [ev |] | | key]; cbn [step].
  - exact Hst.
  - apply applyEvent_roomy; assumption.
  - exact Hst.
  - apply tick_roomy, Hst.
  - pose proof (handleKey_effect key st pc) as [Hp [Hd _]].
    unfold bind.
    destruct (handleKey key st pc) as [[quit st'] sent]. cbn [fst snd] in Hp, Hd.
    assert (Hst' : roomy st').
    { unfold roomy, withinTrack in *. rewrite Hp, Hd. exact Hst. }
    destruct quit; exact Hst'.
Qed.

Lemma seed_roomy (status : option Status) : statusOrdered status -> roomy (seed status).
Proof.
  assert (Hinit : roomy initial).
  { unfold roomy, withinTrack, MaxInt64, time.Second. cbn. lia. }
  destruct status as [s |]; [| intros _; exact Hinit].
  destruct s as [sStopped sPaused sBuf sVol sSteps sCtx sTrk sShuf [track |]];
    cbn [statusOrdered seed]; [| intros _; destruct sTrk, sCtx; exact Hinit].
  intros Hord. unfold ordered in Hord.
  unfold roomy, withinTrack, applyStatus. cbn [Track_ RepeatTrack RepeatContext].
  destruct sTrk, sCtx; cbn; exact Hord.
Qed.

(** C1, as the code has it.  When every metadata and seek payload that
    decodes reports [0 <= position <= duration], with the duration at
    most [MaxInt64] less one second once in nanoseconds, and the track of
    the seeding status, if any, has such a duration, then
    [0 <= progress <= duration] holds in the view after any number of
    items of the loop (events, ticks and keys), however the loop ends.
    Only the tick clamps, and only from above: the values a metadata or
    seek event or the snapshot reports are stored as they come. *)
Theorem main_progress_within_duration
  (status : option Status) (items : list Item) (n : nat) (pc : Client) :
  statusOrdered status -> Forall reportsOrdered items ->
  withinTrack (stateOf (main.main status (firstn n items) pc)).
Proof.
  intros Hstatus Hitems.
  apply (main_invariant roomy reportsOrdered step_roomy status (firstn n items) pc).
  - apply seed_roomy, Hstatus.
  - apply Forall_prefix, Hitems.
Qed.

Lemma main_progress_within_duration_witness :
  let status := Some (sample.status 40 (Some (sample.track "Other" 180000))) in
  let items :=
    [Recv (Some (sample.metadata "Song" 1000 200000));
     Recv (Some (sample.bare "playing")); Tick; Key sample.k;
     Recv (Some (sample.seek 199500 200000)); Tick; Tick; Key sample.space] in
  statusOrdered status
  /\ Forall reportsOrdered items
  /\ withinTrack (stateOf (main.main status (firstn 6 items) sample.down)).
Proof.
  intros status items.
  assert (Hstatus : statusOrdered status).
  { unfold status, statusOrdered, ordered, MaxInt64. cbn. lia. }
  assert (Hitems : Forall reportsOrdered items).
  { unfold items.
    repeat (apply Forall_cons; [cbn [reportsOrdered] |]); try apply Forall_nil;
      try exact I.
    all: split; intros Hty d Hd; try (vm_compute in Hty; discriminate Hty).
    all: vm_compute in Hd; injection Hd as <-.
    all: unfold ordered; vm_compute; intuition discriminate. }
  conjuncts.
  - exact Hstatus.
  - exact Hitems.
  - apply (main_progress_within_duration status items 6 sample.down Hstatus Hitems).
Defined.

(** C1 as stated fails: nothing clamps what an event or the snapshot
    reports.  A seek to 5000 ms of a 1000 ms track leaves [progress] above
    [duration], and so does a metadata event with that position; a
    snapshot whose track has a negative duration leaves [progress] above
    it as well; and at the far end of [int64] the tick's own addition
    wraps below zero. *)
Lemma progress_bound_not_enforced :
  let beyond := main.main None [Recv (Some (sample.seek 5000 1000))] sample.up in
  let late := applyEvent initial (sample.metadata "Song" 5000 1000) in
  let negative :=
    main.main (Some (sample.status 40 (Some (sample.track "Other" (-1))))) [] sample.up in
  let far := 9223372036854 in
  let before :=
    main.main None [Recv (Some (sample.seek far far));
                    Recv (Some (sample.bare "playing"))] sample.up in
  let wrapped :=
    main.main None [Recv (Some (sample.seek far far));
                    Recv (Some (sample.bare "playing")); Tick] sample.up in
  (controlOf beyond = Continue
   /\ progress (stateOf beyond) = 5000 * time.Millisecond
   /\ duration (stateOf beyond) = 1000 * time.Millisecond
   /\ ~ withinTrack (stateOf beyond))
  /\ (progress late = 5000 * time.Millisecond
      /\ duration late = 1000 * time.Millisecond
      /\ ~ withinTrack late)
  /\ (controlOf negative = Continue
      /\ progress (stateOf negative) = 0
      /\ duration (stateOf negative) = - time.Millisecond
      /\ ~ withinTrack (stateOf negative))
  /\ (withinTrack (stateOf before)
      /\ controlOf wrapped = Continue
      /\ progress (stateOf wrapped) = far * time.Millisecond + time.Second - 2 ^ 64
      /\ ~ withinTrack (stateOf wrapped)).
Proof.
  cbv zeta. unfold withinTrack.
  conjuncts; try reflexivity; vm_compute; intuition discriminate.
Qed.

(** ** Volume *)

Lemma handleKey_percent (key : list byte) (st : appState) (pc : Client) :
  percent (volume st) -> percent (volume (snd (fst (handleKey key st pc)))).
Proof.
  unfold percent. intros Hv.
  destruct (handleKey_effect key st pc) as [_ [_ [Hsame | [Hup | Hdown]]]].
  - rewrite Hsame. exact Hv.
  - rewrite Hup, min_spec, wrap64_exact by (unfold MinInt64, MaxInt64; lia). lia.
  - rewrite Hdown, max_spec, wrap64_exact by (unfold MinInt64, MaxInt64; lia). lia.
Qed.

Lemma applyEvent_percent (st : appState) (ev : Event) :
  percent (volume st) -> reportsPercent (Recv (Some ev)) ->
  percent (volume (applyEvent st ev)).
Proof.
  intros Hst Hvol. unfold applyEvent. cbn [reportsPercent] in Hvol.
  destruct (Type_ ev == "metadata").
  { destruct (json.Unmarshal (Data ev) : option EventMetadata); destruct st; exact Hst. }
  destruct (Type_ ev == "playing"); [destruct st; exact Hst |].
  destruct (Type_ ev == "paused"); [destruct st; exact Hst |].
  destruct (Type_ ev == "stopped"); [destruct st; exact Hst |].
  destruct (Type_ ev == "seek").
  { destruct (json.Unmarshal (Data ev) : option EventSeek); destruct st; exact Hst. }
  destruct (Type_ ev == "volume") eqn:E6.
  { apply String.eqb_eq in E6. specialize (Hvol E6).
    destruct (json.Unmarshal (Data ev) : option EventVolume) as [d |]; [| exact Hst].
    specialize (Hvol d eq_refl). destruct st; exact Hvol. }
  destruct (Type_ ev == "shuffle_context").
  { destruct (json.Unmarshal (Data ev) : option EventBool); destruct st; exact Hst. }
  destruct (Type_ ev == "repeat_context").
  { destruct (json.Unmarshal (Data ev) : option EventBool) as [[[|]] |];
      [| destruct (repeat st == "context") |]; destruct st; exact Hst. }
  destruct (Type_ ev == "repeat_track").
  { destruct (json.Unmarshal (Data ev) : option EventBool) as [[[|]] |];
      [| destruct (repeat st == "track") |]; destruct st; exact Hst. }
  exact Hst.
Qed.

Lemma step_percent (st : appState) (item : Item) (pc : Client) :
  percent (volume st) -> reportsPercent item ->
  percent (volume (stateOf (step st item pc))).
Proof.
  intros Hst Hitem. destruct item as [| [ev |] | | key]; cbn [step].
  - exact Hst.
  - apply applyEvent_percent; assumption.
  - exact Hst.
  - unfold stateOf, ret. cbn [fst snd]. rewrite tick_volume. exact Hst.
  - pose proof (handleKey_percent key st pc Hst) as Hkey.
    unfold bind.
    destruct (handleKey key st pc) as [[quit st'] sent]. cbn [fst snd] in Hkey.
    destruct quit; exact Hkey.
Qed.

Lemma seed_percent (status : option Status) :
  statusPercent status -> percent (volume (seed status)).
Proof.
  destruct status as [s |]; cbn [statusPercent seed].
  - intros Hs. unfold applyStatus.
    destruct (Track_ s), (RepeatTrack s), (RepeatContext s); exact Hs.
  - intros _. unfold percent. cbn. lia.
Qed.

(** C4, as the code has it.  The volume keys keep the volume in [0,100]:
    up adds 5 and stops at 100, down subtracts 5 and stops at 0.  A volume
    event and the snapshot store the value they report as it comes.  So
    when every volume payload that decodes, and the seeding status if any,
    report a value in [0,100], the volume of the view is in [0,100] after
    any number of items of the loop. *)
Theorem main_volume_in_range
  (status : option Status) (items : list Item) (n : nat) (pc : Client) :
  statusPercent status -> Forall reportsPercent items ->
  percent (volume (stateOf (main.main status (firstn n items) pc))).
Proof.
  intros Hstatus Hitems.
  apply (main_invariant (fun st => percent (volume st)) reportsPercent
           step_percent status (firstn n items) pc).
  - apply seed_percent, Hstatus.
  - apply Forall_prefix, Hitems.
Qed.

Lemma main_volume_in_range_witness :
  let status := Some (sample.status 98 None) in
  let items :=
    [Key sample.k; Key sample.k; Recv (Some (sample.volume 3));
     Key sample.down_arrow; Key sample.down_arrow; Tick] in
  statusPercent status
  /\ Forall reportsPercent items
  /\ percent (volume (stateOf (main.main status (firstn 2 items) sample.down)))
  /\ percent (volume (stateOf (main.main status (firstn 5 items) sample.down))).
Proof.
  intros status items.
  assert (Hstatus : statusPercent status).
  { unfold status, statusPercent, percent. cbn. lia. }
  assert (Hitems : Forall reportsPercent items).
  { unfold items.
    repeat (apply Forall_cons; [cbn [reportsPercent] |]); try apply Forall_nil;
      try exact I.
    intros _ d Hd. vm_compute in Hd. injection Hd as <-.
    unfold percent. vm_compute. intuition discriminate. }
  conjuncts.
  - exact Hstatus.
  - exact Hitems.
  - apply (main_volume_in_range status items 2 sample.down Hstatus Hitems).
  - apply (main_volume_in_range status items 5 sample.down Hstatus Hitems).
Defined.

(** C4 as stated fails: a volume event reporting 150 and a snapshot
    reporting 250 are stored as they come, and the keys, which only stop
    at the end they move towards, do not bring such a value back. *)
Lemma volume_report_not_clamped :
  let loud := main.main None [Recv (Some (sample.volume 150))] sample.up in
  let seeded := main.main (Some (sample.status 250 None)) [] sample.up in
  let lowered :=
    main.main None [Recv (Some (sample.volume 150)); Key sample.down_arrow] sample.up in
  (controlOf loud = Continue /\ volume (stateOf loud) = 150
   /\ ~ percent (volume (stateOf loud)))
  /\ (controlOf seeded = Continue /\ volume (stateOf seeded) = 250
      /\ ~ percent (volume (stateOf seeded)))
  /\ (controlOf lowered = Continue /\ volume (stateOf lowered) = 145).
Proof.
  cbv zeta. unfold percent.
  conjuncts; try reflexivity; vm_compute; intuition discriminate.
Qed.

(** * Further properties of the state owner *)

Import terms.

(** ** Strings *)

Lemma append_assoc (a b c : string) : ((a ++ b) ++ c = a ++ b ++ c)%string.
Proof. induction a as [| x a IH]; cbn; [reflexivity | rewrite IH; reflexivity]. Qed.

Lemma append_empty_r (a : string) : (a ++ "" = a)%string.
Proof. induction a as [| x a IH]; cbn; [reflexivity | rewrite IH; reflexivity]. Qed.

Lemma length_append (a b : string) :
  String.length (a ++ b) = (String.length a + String.length b)%nat.
Proof. induction a as [| x a IH]; cbn; [reflexivity | rewrite IH; reflexivity]. Qed.

Lemma length_prefix (n : nat) (s : string) :
  (n <= String.length s)%nat -> String.length (substring 0 n s) = n.
Proof.
  revert s. induction n as [| n IH]; intros [| c s] Hn; cbn in *; try reflexivity; try lia.
  rewrite IH by lia. reflexivity.
Qed.

Lemma fold_join (rest : list string) (acc : string) :
  fold_left (fun result s => (result ++ ", " ++ s)%string) rest acc
  = match rest with
    | [] => acc
    | _ => (acc ++ ", " ++ String.concat ", " rest)%string
    end.
Proof.
  revert acc. induction rest as [| s rest IH]; intros acc; [reflexivity |].
  cbn [fold_left]. rewrite IH. destruct rest as [| s' rest]; [reflexivity |].
  cbn [String.concat]. rewrite !append_assoc. reflexivity.
Qed.

Lemma joinStrings_join (ss : list string) :
  joinStrings ss = String.concat ", " ss.
Proof.
  destruct ss as [| s0 rest]; [reflexivity |].
  unfold joinStrings. rewrite fold_join.
  destruct rest; reflexivity.
Qed.

(** [joinStrings] is the join of the standard library with separator
    ", ": no separator before the first or after the last name, none at
    all for fewer than two names. *)
Theorem joinStrings_concat (ss : list string) :
  joinStrings ss = String.concat ", " ss.
Proof. apply joinStrings_join. Qed.

(** ** What a tick and an event leave alone *)

Lemma tick_frame (st : appState) : tick st = set_progress st (progress (tick st)).
Proof.
  unfold tick. destruct (isPlaying st && negb (stopped st)).
  - cbn [set_progress progress duration].
    destruct (_ >? _); destruct st; reflexivity.
  - destruct st; reflexivity.
Qed.

Lemma ticks_frame (n : nat) (st : appState) :
  ticks n st = set_progress st (progress (ticks n st)).
Proof.
  unfold ticks. induction n as [| n IH].
  - destruct st; reflexivity.
  - rewrite Nat.iter_succ. set (T := Nat.iter n tick st) in *.
    rewrite (tick_frame T) at 1. rewrite IH at 1. destruct st; reflexivity.
Qed.

(** A metadata event replaces the track and the clock whatever the ticks
    before it had made of [progress]: after any number of ticks the view
    has the reported name, artists, album, duration and position, is not
    stopped, and keeps its play state, shuffle, repeat mode and volume. *)
Theorem metadata_after_ticks (st : appState) (n : nat) (ev : Event) (d : EventMetadata) :
  Metadata d ev ->
  applyEvent (ticks n st) ev
  = {| trackName := Name d;
       artistNames := String.concat ", " (ArtistNames d);
       albumName := AlbumName d;
       duration := ms (Duration d);
       progress := ms (Position d);
       isPlaying := isPlaying st;
       shuffle := shuffle st;
       repeat := repeat st;
       volume := volume st;
       stopped := false |}.
Proof.
  intros [Hty Hdec]. rewrite ticks_frame, <- joinStrings_join.
  unfold applyEvent. rewrite Hty. cbn. rewrite Hdec.
  destruct st; reflexivity.
Qed.

Lemma metadata_after_ticks_witness :
  let st := set_isPlaying (applyEvent initial (sample.metadata "Song" 0 200000)) true in
  let ev := sample.metadata "Next" 250 180000 in
  progress (ticks 10 st) = 10000 * time.Millisecond
  /\ progress (applyEvent (ticks 10 st) ev) = 250 * time.Millisecond
  /\ trackName (applyEvent (ticks 10 st) ev) = "Next"
  /\ artistNames (applyEvent (ticks 10 st) ev) = "A, B"
  /\ isPlaying (applyEvent (ticks 10 st) ev) = true.
Proof.
  intros st ev.
  assert (Hev : Metadata
                  {| URI := "spotify:track:1"; Name := "Next"; ArtistNames := ["A"; "B"];
                     AlbumName := "LP"; AlbumCover := ""; Duration := 180000;
                     Position := 250 |} ev) by (split; reflexivity).
  rewrite (metadata_after_ticks st 10 ev _ Hev).
  conjuncts; reflexivity.
Defined.

Ltac by_type ev :=
  unfold applyEvent;
  repeat match goal with
         | |- context [Type_ ev == ?t] =>
             let E := fresh "E" in
             destruct (Type_ ev == t) eqn:E;
             [apply String.eqb_eq in E | apply String.eqb_neq in E]
         end.

(** Each kind of event writes its own fields only.  The track fields are
    written by metadata events alone; the clock by metadata and seek; the
    play state by playing, paused and stopped; [stopped] by metadata,
    playing and stopped; shuffle, repeat and volume each by their own
    event. *)
Theorem applyEvent_frame (st : appState) (ev : Event) :
  let st' := applyEvent st ev in
  (Type_ ev <> "metadata" ->
   trackName st' = trackName st /\ artistNames st' = artistNames st
   /\ albumName st' = albumName st)
  /\ (Type_ ev <> "metadata" -> Type_ ev <> "seek" ->
      progress st' = progress st /\ duration st' = duration st)
  /\ (Type_ ev <> "playing" -> Type_ ev <> "paused" -> Type_ ev <> "stopped" ->
      isPlaying st' = isPlaying st)
  /\ (Type_ ev <> "metadata" -> Type_ ev <> "playing" -> Type_ ev <> "stopped" ->
      stopped st' = stopped st)
  /\ (Type_ ev <> "shuffle_context" -> shuffle st' = shuffle st)
  /\ (Type_ ev <> "repeat_context" -> Type_ ev <> "repeat_track" ->
      repeat st' = repeat st)
  /\ (Type_ ev <> "volume" -> volume st' = volume st).
Proof.
  cbv zeta. conjuncts; intros; by_type ev; try contradiction;
    repeat match goal with
           | |- context [match ?x with _ => _ end] => destruct x
           end;
    conjuncts; destruct st; reflexivity.
Qed.

Lemma applyEvent_frame_witness :
  let st := applyEvent initial (sample.metadata "Song" 1000 200000) in
  volume (applyEvent st (sample.seek 5 10)) = volume st
  /\ trackName (applyEvent st (sample.seek 5 10)) = "Song"
  /\ progress (applyEvent st (sample.volume 30)) = progress st
  /\ repeat (applyEvent st (sample.bare "stopped")) = repeat st.
Proof.
  intros st.
  destruct (applyEvent_frame st (sample.seek 5 10)) as [Htrack [_ [_ [_ [_ [_ Hvol]]]]]].
  destruct (applyEvent_frame st (sample.volume 30)) as [_ [Hclock _]].
  destruct (applyEvent_frame st (sample.bare "stopped")) as [_ [_ [_ [_ [_ [Hrep _]]]]]].
  conjuncts.
  - apply Hvol. discriminate.
  - destruct Htrack as [Hname _]; [discriminate |]. rewrite Hname. reflexivity.
  - apply Hclock; discriminate.
  - apply Hrep; discriminate.
Defined.

(** A push event delivered twice in a row has the effect of one
    delivery, and so has a snapshot applied twice. *)
Theorem applyEvent_idempotent (st : appState) (ev : Event) (s : Status) :
  applyEvent (applyEvent st ev) ev = applyEvent st ev
  /\ applyStatus (applyStatus st s) s = applyStatus st s.
Proof.
  split.
  - by_type ev; try reflexivity.
    all: match goal with
         | |- context [json.Unmarshal ?data] =>
             destruct (json.Unmarshal data) as [d |]; [| reflexivity]
         end.
    all: try reflexivity.
    + destruct d as [[|]]; cbn [Bool_Value]; [reflexivity |].
      destruct (repeat st == "context") eqn:Hmode; [reflexivity |].
      rewrite Hmode. reflexivity.
    + destruct d as [[|]]; cbn [Bool_Value]; [reflexivity |].
      destruct (repeat st == "track") eqn:Hmode; [reflexivity |].
      rewrite Hmode. reflexivity.
  - unfold applyStatus.
    destruct (Track_ s), (RepeatTrack s), (RepeatContext s); reflexivity.
Qed.

(** ** A stopped view *)

Lemma tick_stopped (st : appState) : stopped st = true -> tick st = st.
Proof. intros H. apply tick_idle. right. exact H. Qed.

Lemma ticks_stopped (n : nat) (st : appState) : stopped st = true -> ticks n st = st.
Proof.
  intros H. unfold ticks. induction n as [| n IH]; [reflexivity |].
  rewrite Nat.iter_succ, IH. apply tick_stopped, H.
Qed.

(** After a "stopped" event the view is not playing and stopped, with
    everything else as it was.  From then on ticks change nothing, the
    placeholder screen is drawn, and the loop keeps running without a
    request: a stopped view never reaches the progress bar. *)
Theorem stopped_view_stays (st : appState) (ev : Event) (n : nat) (pc : Client) :
  Type_ ev = "stopped" ->
  let idle := set_stopped (set_isPlaying st false) true in
  applyEvent st ev = idle
  /\ ticks n idle = idle
  /\ render idle = Some NoTrack
  /\ loop st (Recv (Some ev) :: List.repeat Tick n) pc = ((Continue, idle), []).
Proof.
  intros Hty idle.
  assert (Hev : applyEvent st ev = idle).
  { unfold applyEvent. rewrite Hty. reflexivity. }
  assert (Hdraw : render idle = Some NoTrack) by reflexivity.
  assert (Hloop : forall k, loop idle (List.repeat Tick k) pc = ((Continue, idle), [])).
  { induction k as [| k IH]; [reflexivity |].
    cbn [List.repeat loop step]. unfold bind, ret.
    rewrite (tick_stopped idle eq_refl). unfold rendered. rewrite Hdraw.
    rewrite IH. reflexivity. }
  conjuncts.
  - exact Hev.
  - apply ticks_stopped. reflexivity.
  - exact Hdraw.
  - cbn [loop step]. unfold bind, ret. rewrite Hev. unfold rendered. rewrite Hdraw.
    rewrite Hloop. reflexivity.
Qed.

Lemma stopped_view_stays_witness :
  let st := set_isPlaying (applyEvent initial (sample.metadata "Song" 199000 200000)) true in
  let ev := sample.bare "stopped" in
  controlOf (loop st (Recv (Some ev) :: List.repeat Tick 5) sample.up) = Continue
  /\ progress (stateOf (loop st (Recv (Some ev) :: List.repeat Tick 5) sample.up))
     = 199000 * time.Millisecond
  /\ controlOf (loop st (List.repeat Tick 5) sample.up) = Panic.
Proof.
  intros st ev.
  destruct (stopped_view_stays st ev 5 sample.up eq_refl) as [_ [_ [_ Hloop]]].
  rewrite Hloop. conjuncts; reflexivity.
Defined.

(** ** Keys *)

Lemma is1_spec (key : list byte) (c : byte) : is1 key c = true <-> key = [c].
Proof.
  split.
  - destruct key as [| k0 [| k1 rest]]; cbn; try discriminate.
    intros H. apply byte_dec_bl in H. rewrite H. reflexivity.
  - intros ->. cbn. apply byte_dec_lb. reflexivity.
Qed.

Lemma isArrow_spec (key : list byte) (c : byte) : isArrow key c = true <-> key = arrow c.
Proof.
  unfold arrow. split.
  - destruct key as [| k0 [| k1 [| k2 [| k3 rest]]]]; cbn; try discriminate.
    intros H. apply andb_prop in H as [H H2]. apply andb_prop in H as [H0 H1].
    apply byte_dec_bl in H0, H1, H2. subst. reflexivity.
  - intros ->. cbn. rewrite (byte_dec_lb (eq_refl c)). reflexivity.
Qed.

Lemma is1_other (key : list byte) (c : byte) : key <> [c] -> is1 key c = false.
Proof.
  intros H. destruct (is1 key c) eqn:E; [| reflexivity].
  apply is1_spec in E. contradiction.
Qed.

Lemma isArrow_other (key : list byte) (c : byte) : key <> arrow c -> isArrow key c = false.
Proof.
  intros H. destruct (isArrow key c) eqn:E; [| reflexivity].
  apply isArrow_spec in E. contradiction.
Qed.

(** [handleKey] asks to quit exactly on [q] and on Ctrl+C, and then it
    issues no request and leaves the view as it is. *)
Theorem handleKey_quits_iff (key : list byte) (st : appState) (pc : Client) :
  (fst (fst (handleKey key st pc)) = true <-> key = ["q"%byte] \/ key = [x03])
  /\ (fst (fst (handleKey key st pc)) = true -> handleKey key st pc = ((true, st), [])).
Proof.
  assert (Hquit : is1 key "q"%byte || is1 key x03 = true ->
                  handleKey key st pc = ((true, st), [])).
  { intros H. unfold handleKey. rewrite H. reflexivity. }
  assert (Hstay : is1 key "q"%byte || is1 key x03 = false ->
                  fst (fst (handleKey key st pc)) = false).
  { intros H. unfold handleKey, cycleRepeat, bind, call, ret. rewrite H.
    repeat match goal with
           | |- context [if ?b then _ else _] => destruct b
           end; reflexivity. }
  destruct (is1 key "q"%byte || is1 key x03) eqn:E.
  - split; [| intros _; apply Hquit; reflexivity].
    rewrite Hquit by reflexivity. cbn [fst]. split; [intros _ | reflexivity].
    apply orb_prop in E as [E | E]; apply is1_spec in E; auto.
  - rewrite Hstay by reflexivity. split; [| discriminate].
    split; [discriminate |].
    intros [-> | ->]; cbn in E; discriminate E.
Qed.

(** A key sequence without a case is ignored: no request, no change.
    And whatever the key, the track, the clock and [stopped] are not
    touched, and at most two requests are issued. *)
Theorem handleKey_frame (key : list byte) (st : appState) (pc : Client) :
  (~ In key knownKeys -> handleKey key st pc = ((false, st), []))
  /\ (let st' := snd (fst (handleKey key st pc)) in
      trackName st' = trackName st /\ artistNames st' = artistNames st
      /\ albumName st' = albumName st /\ duration st' = duration st
      /\ progress st' = progress st /\ stopped st' = stopped st)
  /\ (List.length (snd (handleKey key st pc)) <= 2)%nat.
Proof.
  conjuncts.
  - intros Hnot. unfold knownKeys in Hnot. cbn [In] in Hnot.
    unfold handleKey.
    rewrite !is1_other, !isArrow_other by (intros Heq; apply Hnot; rewrite Heq; tauto).
    reflexivity.
  - destruct st as [tn an al du pr pl sh re vo stp].
    unfold handleKey, cycleRepeat, bind, call, ret.
    repeat match goal with
           | |- context [if ?b then _ else _] => destruct b
           end; cbn; conjuncts; reflexivity.
  - unfold handleKey, cycleRepeat, bind, call, ret.
    repeat match goal with
           | |- context [if ?b then _ else _] => destruct b
           end; cbn; lia.
Qed.

Lemma handleKey_frame_witness :
  let st := applyEvent initial (sample.metadata "Song" 1000 200000) in
  handleKey ["x"%byte] st sample.up = ((false, st), [])
  /\ handleKey [x1b] st sample.up = ((false, st), [])
  /\ handleKey ["q"%byte; "q"%byte] st sample.up = ((false, st), []).
Proof.
  intros st.
  assert (H : forall key, existsb (fun k => if list_eq_dec Byte.byte_eq_dec key k
                                           then true else false) knownKeys = false ->
                          ~ In key knownKeys).
  { intros key Hnone Hin.
    assert (Hex : existsb (fun k => if list_eq_dec Byte.byte_eq_dec key k
                                    then true else false) knownKeys = true).
    { apply existsb_exists. exists key. split; [exact Hin |].
      destruct (list_eq_dec Byte.byte_eq_dec key key); [reflexivity | contradiction]. }
    rewrite Hex in Hnone. discriminate. }
  conjuncts.
  - apply (handleKey_frame ["x"%byte] st sample.up), H. reflexivity.
  - apply (handleKey_frame [x1b] st sample.up), H. reflexivity.
  - apply (handleKey_frame ["q"%byte; "q"%byte] st sample.up), H. reflexivity.
Defined.

(** The arrow keys do what the letters do: up is [k], down is [j], right
    is [l], left is [h], in every view and with the same requests. *)
Theorem arrows_as_letters (st : appState) (pc : Client) :
  handleKey (arrow "A"%byte) st pc = handleKey ["k"%byte] st pc
  /\ handleKey (arrow "B"%byte) st pc = handleKey ["j"%byte] st pc
  /\ handleKey (arrow "C"%byte) st pc = handleKey ["l"%byte] st pc
  /\ handleKey (arrow "D"%byte) st pc = handleKey ["h"%byte] st pc
  /\ handleKey ["l"%byte] st pc = ((false, st), [Next])
  /\ handleKey ["h"%byte] st pc = ((false, st), [Prev]).
Proof. conjuncts; reflexivity. Qed.

(** Space and [s] are toggles: pressed twice they give the view back,
    having asked the daemon to toggle play/pause twice, or to set shuffle
    to the new value and then to the old one. *)
Theorem toggles_twice (st : appState) (pc : Client) :
  let play1 := handleKey sample.space st pc in
  let play2 := handleKey sample.space (snd (fst play1)) pc in
  let shuf1 := handleKey ["s"%byte] st pc in
  let shuf2 := handleKey ["s"%byte] (snd (fst shuf1)) pc in
  fst play2 = (false, st)
  /\ (snd play1 ++ snd play2)%list = [PlayPause; PlayPause]
  /\ fst shuf1 = (false, set_shuffle st (negb (shuffle st)))
  /\ fst shuf2 = (false, st)
  /\ (snd shuf1 ++ snd shuf2)%list
     = [SetShuffle (negb (shuffle st)); SetShuffle (shuffle st)].
Proof.
  destruct st as [tn an al du pr pl sh re vo stp].
  cbv zeta. conjuncts; cbn; rewrite ?negb_involutive; reflexivity.
Qed.

(** With the volume in [0,100], the up key sets it to [min 100 (v + 5)]
    and the down key to [max 0 (v - 5)], and each asks the daemon for the
    relative change of 5 even when the local value has stopped at an
    end.  Up then down gives the view back when [v <= 95], down then up
    when [5 <= v]. *)
Theorem volume_keys (st : appState) (pc : Client) :
  percent (volume st) ->
  let up := handleKey sample.k st pc in
  let down := handleKey ["j"%byte] st pc in
  up = ((false, set_volume st (Z.min 100 (volume st + 5))), [SetVolumeRelative 5])
  /\ down = ((false, set_volume st (Z.max 0 (volume st - 5))), [SetVolumeRelative (-5)])
  /\ (volume st <= 95 ->
      snd (fst (handleKey ["j"%byte] (snd (fst up)) pc)) = st)
  /\ (5 <= volume st ->
      snd (fst (handleKey sample.k (snd (fst down)) pc)) = st).
Proof.
  unfold percent. intros Hv.
  assert (Hup : forall s, 0 <= volume s <= 100 ->
                handleKey sample.k s pc
                = ((false, set_volume s (Z.min 100 (volume s + 5))), [SetVolumeRelative 5])).
  { intros s Hs. cbv [handleKey sample.k bind call ret is1 isArrow]. cbn.
    rewrite min_spec, wrap64_exact by (unfold MinInt64, MaxInt64; lia). reflexivity. }
  assert (Hdown : forall s, 0 <= volume s <= 100 ->
                  handleKey ["j"%byte] s pc
                  = ((false, set_volume s (Z.max 0 (volume s - 5))),
                     [SetVolumeRelative (-5)])).
  { intros s Hs. cbv [handleKey bind call ret is1 isArrow]. cbn.
    rewrite max_spec, wrap64_exact by (unfold MinInt64, MaxInt64; lia). reflexivity. }
  cbv zeta. rewrite Hup, Hdown by exact Hv. cbn [fst snd].
  conjuncts; try reflexivity.
  - intros Hroom.
    rewrite Hdown by (destruct st; cbn [set_volume volume] in *; lia).
    destruct st as [tn an al du pr pl sh re vo stp].
    cbv [fst snd set_volume volume trackName artistNames albumName duration
         progress isPlaying shuffle repeat stopped] in *.
    f_equal. lia.
  - intros Hroom.
    rewrite Hup by (destruct st; cbn [set_volume volume] in *; lia).
    destruct st as [tn an al du pr pl sh re vo stp].
    cbv [fst snd set_volume volume trackName artistNames albumName duration
         progress isPlaying shuffle repeat stopped] in *.
    f_equal. lia.
Qed.

Lemma volume_keys_witness :
  let st := set_volume initial 98 in
  let press key (s : appState) := snd (fst (handleKey key s sample.down)) in
  volume (press sample.k st) = 100
  /\ volume (press ["j"%byte] (press sample.k st)) = 95
  /\ press sample.k (press ["j"%byte] st) = st
  /\ volume (press ["j"%byte] (set_volume initial 3)) = 0.
Proof.
  intros st press.
  assert (Hst : percent (volume st)) by (unfold percent; cbn; lia).
  assert (Hlow : percent (volume (set_volume initial 3))) by (unfold percent; cbn; lia).
  destruct (volume_keys st sample.down Hst) as [Hup [_ [_ Hback]]].
  destruct (volume_keys (set_volume initial 3) sample.down Hlow) as [_ [Hdown _]].
  unfold press. conjuncts.
  - rewrite Hup. reflexivity.
  - rewrite Hup. reflexivity.
  - apply Hback. cbn. lia.
  - rewrite Hdown. reflexivity.
Defined.

(** ** The loop *)

Lemma loop_append (st : appState) (a b : list Item) (pc : Client) :
  loop st (a ++ b) pc
  = match loop st a pc with
    | ((Continue, st'), sent) =>
        let (r, sent') := loop st' b pc in (r, (sent ++ sent')%list)
    | stop => stop
    end.
Proof.
  revert st. induction a as [| item a IH]; intros st.
  - cbn [app loop]. unfold ret. destruct (loop st b pc) as [r sent]. reflexivity.
  - cbn [app loop]. unfold bind.
    destruct (step st item pc) as [[c st1] sent1].
    destruct c; try reflexivity.
    rewrite IH.
    destruct (loop st1 a pc) as [[c2 st2] sent2].
    destruct c2; try reflexivity.
    destruct (loop st2 b pc) as [r sent3].
    rewrite app_assoc. reflexivity.
Qed.

(** Running the loop over [a ++ b] is running it over [a] and, if that
    leaves it running, over [b] from the view reached, the requests of
    the two runs in sequence; once the loop has returned or panicked,
    what follows is not looked at. *)
Theorem loop_app (st : appState) (a b : list Item) (pc : Client) :
  loop st (a ++ b) pc
  = match loop st a pc with
    | ((Continue, st'), sent) =>
        let (r, sent') := loop st' b pc in (r, (sent ++ sent')%list)
    | stop => stop
    end.
Proof. apply loop_append. Qed.

(** A signal, the closing of the event channel and a quit key end the
    loop at once: [main] returns with the view it had, later items are
    not processed and no request is issued for them.  Hence a run that
    contains such an item never ends with the loop still running. *)
Theorem loop_stops (st : appState) (before after : list Item) (item : Item) (pc : Client) :
  stops item \/ item = Key ["q"%byte] \/ item = Key [x03] ->
  loop st (item :: after) pc = ((Return, st), [])
  /\ loop st (before ++ item :: after) pc = loop st (before ++ [item]) pc
  /\ controlOf (loop st (before ++ item :: after) pc) <> Continue.
Proof.
  intros Hstop.
  assert (Hnow : forall s rest, loop s (item :: rest) pc = ((Return, s), [])).
  { intros s rest.
    destruct Hstop as [[-> | ->] | [-> | ->]]; reflexivity. }
  assert (Hcut : forall rest,
            loop st (before ++ item :: rest) pc
            = match loop st before pc with
              | ((Continue, st'), sent) => ((Return, st'), sent)
              | stop => stop
              end).
  { intros rest. rewrite loop_append.
    destruct (loop st before pc) as [[c st'] sent]. destruct c; try reflexivity.
    rewrite Hnow. rewrite app_nil_r. reflexivity. }
  conjuncts.
  - apply Hnow.
  - rewrite (Hcut after), (Hcut []). reflexivity.
  - rewrite Hcut. unfold controlOf.
    destruct (loop st before pc) as [[c st'] sent]. destruct c; cbn; discriminate.
Qed.

Lemma loop_stops_witness :
  let st := applyEvent initial (sample.metadata "Song" 1000 200000) in
  let keys := [Key sample.k; Key sample.r] in
  loop st (keys ++ Recv None :: [Key sample.k; Tick]) sample.up
  = loop st (keys ++ [Recv None]) sample.up
  /\ loop st (keys ++ Key ["q"%byte] :: [Key sample.space]) sample.up
     = ((Return, set_repeat (set_volume st 5) "context"),
        [SetVolumeRelative 5; SetRepeatContext true]).
Proof.
  intros st keys.
  destruct (loop_stops st keys [Key sample.k; Tick] (Recv None) sample.up) as [_ [H1 _]].
  { left. right. reflexivity. }
  destruct (loop_stops st keys [Key sample.space] (Key ["q"%byte]) sample.up) as [_ [H2 _]].
  { right. left. reflexivity. }
  split; [exact H1 |]. rewrite H2. reflexivity.
Defined.

(** * Properties of the display *)

(** ** [TruncateString] *)

(** With [maxLen] at least 3, [TruncateString] never panics and its
    result is at most [maxLen] bytes long: a string that fits is returned
    as it is, a longer one is cut to its first [maxLen - 3] bytes followed
    by three dots, [maxLen] bytes in all. *)
Theorem TruncateString_fits (s : string) (maxLen : Z) :
  3 <= maxLen <= MaxInt64 ->
  let len := Z.of_nat (String.length s) in
  if len <=? maxLen
  then display.TruncateString s maxLen = Some s
  else exists t,
      display.TruncateString s maxLen = Some t
      /\ t = (substring 0 (Z.to_nat (maxLen - 3)) s ++ "...")%string
      /\ Z.of_nat (String.length t) = maxLen.
Proof.
  intros Hmax len. unfold display.TruncateString. fold len.
  destruct (Z.leb_spec len maxLen) as [Hfit | Hlong]; [reflexivity |].
  rewrite wrap64_exact by (unfold MinInt64, MaxInt64 in *; lia).
  destruct (Z.ltb_spec (maxLen - 3) 0); [lia |].
  destruct (Z.ltb_spec len (maxLen - 3)); [lia |].
  cbn [orb]. eexists. split; [reflexivity |]. split; [reflexivity |].
  rewrite length_append, length_prefix by (unfold len in *; lia).
  cbn [String.length]. lia.
Qed.

Lemma TruncateString_fits_witness :
  display.TruncateString "Bohemian Rhapsody" 60 = Some "Bohemian Rhapsody"
  /\ display.TruncateString "Bohemian Rhapsody" 11 = Some "Bohemian..."
  /\ display.TruncateString "Bohemian Rhapsody" 3 = Some "...".
Proof.
  assert (H60 : 3 <= 60 <= MaxInt64) by (unfold MaxInt64; lia).
  assert (H11 : 3 <= 11 <= MaxInt64) by (unfold MaxInt64; lia).
  assert (H3 : 3 <= 3 <= MaxInt64) by (unfold MaxInt64; lia).
  pose proof (TruncateString_fits "Bohemian Rhapsody" 60 H60) as A.
  pose proof (TruncateString_fits "Bohemian Rhapsody" 11 H11) as B.
  pose proof (TruncateString_fits "Bohemian Rhapsody" 3 H3) as C.
  vm_compute in A, B, C.
  destruct B as [t [Ht [Hcut _]]]. destruct C as [t' [Ht' [Hcut' _]]].
  subst t t'.
  conjuncts.
  - exact A.
  - exact Ht.
  - exact Ht'.
Defined.

(** With [maxLen] below 3, a string longer than [maxLen] makes
    [TruncateString] panic on the slice bound [maxLen - 3]. *)
Theorem TruncateString_panics (s : string) (maxLen : Z) :
  MinInt64 + 3 <= maxLen < 3 ->
  maxLen < Z.of_nat (String.length s) ->
  display.TruncateString s maxLen = None.
Proof.
  intros Hmax Hlong. unfold display.TruncateString. cbv zeta.
  destruct (Z.leb_spec (Z.of_nat (String.length s)) maxLen); [lia |].
  rewrite wrap64_exact by (unfold MinInt64, MaxInt64 in *; lia).
  destruct (Z.ltb_spec (maxLen - 3) 0); [reflexivity | lia].
Qed.

Lemma TruncateString_panics_witness :
  display.TruncateString "abc" 2 = None /\ display.TruncateString "a" 0 = None.
Proof.
  split.
  - apply TruncateString_panics; [unfold MinInt64; lia | cbn; lia].
  - apply TruncateString_panics; [unfold MinInt64; lia | cbn; lia].
Defined.

(** ** The cells of the progress bar *)

Lemma Repeat_some (s : string) (count : Z) (r : string) :
  strings.Repeat s count = Some r ->
  0 <= count /\ Z.of_nat (String.length s) * count <= MaxInt64
  /\ r = strings.copies s (Z.to_nat count).
Proof.
  unfold strings.Repeat.
  destruct (Z.ltb_spec count 0); [discriminate |].
  rewrite Z.gtb_ltb.
  destruct (Z.ltb_spec MaxInt64 (Z.of_nat (String.length s) * count)); [discriminate |].
  intros Hsome. injection Hsome as <-. auto.
Qed.

(** Whenever [CreateProgressBar] returns, the bar is [width] cells wide:
    [width] rules when the total is zero, and otherwise some number
    [filled] of heavy rules with [0 <= filled < width], the knob, and
    [width - filled - 1] rules.  In particular it returns for no width
    below 1 when the total is not zero. *)
Theorem CreateProgressBar_cells
  (current total : time.Duration) (width : Z) (bar : string) :
  MinInt64 <= width <= MaxInt64 ->
  display.CreateProgressBar current total width = Some bar ->
  if total =? 0
  then 0 <= width /\ bar = strings.copies "─" (Z.to_nat width)
  else exists filled,
      0 <= filled < width
      /\ bar = (strings.copies "━" (Z.to_nat filled) ++ "●"
                ++ strings.copies "─" (Z.to_nat (width - filled - 1)))%string.
Proof.
  intros Hw. unfold display.CreateProgressBar.
  destruct (total =? 0).
  - intros H. apply Repeat_some in H as [H0 [_ Hbar]]. auto.
  - set (raw := display.toInt _).
    set (capped := if raw >? width then width else raw).
    set (filled := if capped <? 0 then 0 else capped).
    assert (Hfilled : 0 <= filled /\ (filled <= width \/ filled = 0)).
    { unfold filled, capped. rewrite Z.gtb_ltb.
      destruct (Z.ltb_spec width raw);
        match goal with |- context [?a <? 0] => destruct (Z.ltb_spec a 0) end; lia. }
    destruct (strings.Repeat "━" filled) as [done |] eqn:Hdone; [| discriminate].
    destruct (strings.Repeat "─" (wrap64 (wrap64 (width - filled) - 1)))
      as [rest |] eqn:Hrest; [| discriminate].
    intros H. injection H as <-.
    apply Repeat_some in Hdone as [_ [_ ->]].
    apply Repeat_some in Hrest as [Hcount [Hsize ->]].
    rewrite (wrap64_exact (width - filled)) in *
      by (unfold MinInt64, MaxInt64 in *; lia).
    destruct (Z.eq_dec (width - filled) MinInt64) as [Hmin | Hmin].
    + exfalso. rewrite Hmin in Hsize.
      change (wrap64 (MinInt64 - 1)) with MaxInt64 in Hsize.
      change (Z.of_nat (String.length "─")) with 3 in Hsize.
      unfold MaxInt64 in Hsize. lia.
    + rewrite wrap64_exact in * by (unfold MinInt64, MaxInt64 in *; lia).
      exists filled. split; [lia | reflexivity].
Qed.

Lemma CreateProgressBar_cells_witness :
  exists filled,
    0 <= filled < 50
    /\ display.CreateProgressBar (ms 50000) (ms 200000) 50
       = Some (strings.copies "━" (Z.to_nat filled) ++ "●"
               ++ strings.copies "─" (Z.to_nat (50 - filled - 1)))%string.
Proof.
  destruct (display.CreateProgressBar (ms 50000) (ms 200000) 50) as [bar |] eqn:Hbar;
    [| vm_compute in Hbar; discriminate Hbar].
  assert (Hw : MinInt64 <= 50 <= MaxInt64) by (unfold MinInt64, MaxInt64; lia).
  pose proof (CreateProgressBar_cells (ms 50000) (ms 200000) 50 bar Hw Hbar) as H.
  change (ms 200000 =? 0) with false in H. cbv iota in H.
  destruct H as [filled [Hrange Hshape]].
  exists filled. split; [exact Hrange |]. rewrite Hshape. reflexivity.
Defined.

(** At [current = 0] of a total that is not zero the bar is drawn for
    every width from 1 on: the knob followed by [width - 1] rules. *)
Theorem CreateProgressBar_at_zero (total : time.Duration) (width : Z) :
  total <> 0 -> 1 <= width -> 3 * (width - 1) <= MaxInt64 ->
  display.CreateProgressBar 0 total width
  = Some ("●" ++ strings.copies "─" (Z.to_nat (width - 1)))%string.
Proof.
  intros Htotal Hw Hsize. unfold display.CreateProgressBar.
  apply Z.eqb_neq in Htotal. rewrite Htotal.
  set (raw := display.toInt _).
  assert (Hraw : raw = 0 \/ raw = MinInt64).
  { unfold raw. change (display.ofInt 0) with (S754_zero false).
    destruct (display.ofInt total) as [s | s | | s m e];
      destruct (display.ofInt width) as [s' | s' | | s' m' e']; cbn; auto. }
  assert (Hfilled : (if (if raw >? width then width else raw) <? 0 then 0
                     else if raw >? width then width else raw) = 0).
  { destruct Hraw as [-> | ->].
    - rewrite Z.gtb_ltb. destruct (Z.ltb_spec width 0); [lia | reflexivity].
    - rewrite Z.gtb_ltb. destruct (Z.ltb_spec width MinInt64);
        [unfold MinInt64 in *; lia | reflexivity]. }
  rewrite Hfilled. rewrite Z.sub_0_r.
  rewrite (wrap64_exact width) by (unfold MinInt64, MaxInt64 in *; lia).
  rewrite (wrap64_exact (width - 1)) by (unfold MinInt64, MaxInt64 in *; lia).
  unfold strings.Repeat at 1. cbn [Z.ltb Z.compare].
  change (Z.of_nat (String.length "━") * 0 >? MaxInt64) with false. cbv iota.
  unfold strings.Repeat.
  destruct (Z.ltb_spec (width - 1) 0); [lia |].
  change (Z.of_nat (String.length "─")) with 3.
  rewrite Z.gtb_ltb. destruct (Z.ltb_spec MaxInt64 (3 * (width - 1))); [lia |].
  reflexivity.
Qed.

Lemma CreateProgressBar_at_zero_witness :
  display.CreateProgressBar 0 (ms 200000) 50
  = Some ("●" ++ strings.copies "─" 49)%string
  /\ display.CreateProgressBar 0 (-7) 1 = Some "●".
Proof.
  split.
  - apply (CreateProgressBar_at_zero (ms 200000) 50);
      [discriminate | lia | unfold MaxInt64; lia].
  - apply (CreateProgressBar_at_zero (-7) 1);
      [discriminate | lia | unfold MaxInt64; lia].
Defined.

(** ** The end of the track

    Binary64 arithmetic on the integers below [2 ^ 53], which are
    represented exactly. *)

Lemma digits2_lower (p : positive) : 2 ^ (Zpos (digits2_pos p) - 1) <= Zpos p.
Proof.
  induction p as [p IH | p IH |]; cbn [digits2_pos].
  - rewrite Pos2Z.inj_succ.
    replace (Z.succ (Zpos (digits2_pos p)) - 1)
      with (Z.succ (Zpos (digits2_pos p) - 1)) by lia.
    rewrite Z.pow_succ_r by lia. lia.
  - rewrite Pos2Z.inj_succ.
    replace (Z.succ (Zpos (digits2_pos p)) - 1)
      with (Z.succ (Zpos (digits2_pos p) - 1)) by lia.
    rewrite Z.pow_succ_r by lia. lia.
  - cbn. lia.
Qed.

Lemma digits2_small (p : positive) : Zpos p < 2 ^ 53 -> Zpos (digits2_pos p) <= 53.
Proof.
  intros Hp. pose proof (digits2_lower p) as Hlow.
  destruct (Z.le_gt_cases (Zpos (digits2_pos p)) 53) as [H | H]; [exact H |].
  assert (2 ^ 53 <= 2 ^ (Zpos (digits2_pos p) - 1)) by (apply Z.pow_le_mono_r; lia).
  lia.
Qed.

Lemma digits2_shift (p k : positive) :
  digits2_pos (Pos.iter xO p k) = (digits2_pos p + k)%positive.
Proof.
  induction k as [| k IH] using Pos.peano_ind.
  - cbn. lia.
  - rewrite Pos.iter_succ. cbn [digits2_pos]. rewrite IH. lia.
Qed.

Lemma shift_value (p k : positive) : Zpos (Pos.iter xO p k) = Zpos p * 2 ^ Zpos k.
Proof.
  induction k as [| k IH] using Pos.peano_ind.
  - cbn. lia.
  - rewrite Pos.iter_succ, Pos2Z.inj_xO, IH, Pos2Z.inj_succ, Z.pow_succ_r by lia. lia.
Qed.

Lemma shr_fexp_normal (m : positive) (e : Z) :
  Zpos (digits2_pos m) = 53 -> -1074 <= e ->
  shr_fexp 53 1024 (Zpos m) e loc_Exact
  = ({| shr_m := Zpos m; shr_r := false; shr_s := false |}, e).
Proof.
  intros Hd He. unfold shr_fexp, Zdigits2, fexp, emin. rewrite Hd.
  replace (Z.max (53 + e - 53) (3 - 1024 - 53)) with e by lia.
  rewrite Z.sub_diag. reflexivity.
Qed.

(** Rounding leaves a normal number as it is. *)
Lemma round_normal (sx : bool) (m : positive) (e : Z) :
  Zpos (digits2_pos m) = 53 -> -1074 <= e <= 971 ->
  binary_round_aux 53 1024 sx (Zpos m) e loc_Exact = S754_finite sx m e.
Proof.
  intros Hd He. unfold binary_round_aux.
  rewrite (shr_fexp_normal m e Hd) by lia.
  cbn [shr_m loc_of_shr_record round_nearest_even].
  rewrite (shr_fexp_normal m e Hd) by lia. cbn [shr_m].
  destruct (Z.leb_spec e (1024 - 53)); [reflexivity | lia].
Qed.

(** The float of a positive integer below [2 ^ 53] is normal and
    converts back to the integer. *)
Lemma ofInt_exact (n : Z) :
  0 < n < 2 ^ 53 ->
  exists m e, display.ofInt n = S754_finite false m e
              /\ Zpos (digits2_pos m) = 53 /\ -52 <= e <= 0
              /\ Z.shiftl (Zpos m) e = n.
Proof.
  intros [Hpos Hn]. destruct n as [| p | p]; try lia.
  pose proof (digits2_small p Hn) as Hd.
  unfold display.ofInt, binary_normalize, binary_round, shl_align, fexp, emin.
  rewrite Z.add_0_r.
  replace (Z.max (Zpos (digits2_pos p) - 53) (3 - 1024 - 53))
    with (Zpos (digits2_pos p) - 53) by lia.
  rewrite Z.sub_0_r.
  destruct (Zpos (digits2_pos p) - 53) as [| k | k] eqn:Hk; try lia.
  - exists p, 0. split; [apply round_normal; lia |]. repeat split; try lia.
  - exists (Pos.iter xO p k), (Zneg k).
    assert (Hdig : Zpos (digits2_pos (Pos.iter xO p k)) = 53)
      by (rewrite digits2_shift; lia).
    split; [apply round_normal; lia |]. repeat split; try lia.
    change (Zneg k) with (- Zpos k). rewrite Z.shiftl_opp_r, Z.shiftr_div_pow2 by lia.
    rewrite shift_value. apply Z.div_mul. lia.
Qed.

(** A finite float divided by itself is [1.0]. *)
Lemma fdiv_self (s : bool) (m : positive) (e : Z) :
  display.fdiv (S754_finite s m e) (S754_finite s m e) = one.
Proof.
  unfold display.fdiv, SFdiv, SFdiv_core_binary.
  rewrite !Z.sub_diag.
  change (Z.min (fexp 53 1024 0) 0) with (-53).
  change (0 - -53) with 53.
  cbv beta iota zeta.
  assert (Hdiv : Z.div_eucl (Z.shiftl (Zpos m) 53) (Zpos m) = (2 ^ 53, 0)).
  { rewrite Z.shiftl_mul_pow2 by lia. rewrite Z.mul_comm.
    assert (Hqr : forall a b, Z.div_eucl a b = (a / b, a mod b)).
    { intros a b. unfold Z.div, Z.modulo. destruct (Z.div_eucl a b). reflexivity. }
    rewrite Hqr, Z.div_mul, Z.mod_mul by lia. reflexivity. }
  rewrite Hdiv.
  replace (new_location (Zpos m) 0) with loc_Exact
    by (unfold new_location, new_location_even, new_location_odd;
        destruct (Z.even (Zpos m)); reflexivity).
  destruct s; reflexivity.
Qed.

(** A normal float times [1.0] is itself. *)
Lemma fmul_one (s : bool) (m : positive) (e : Z) :
  Zpos (digits2_pos m) = 53 -> -1000 <= e <= 971 ->
  display.fmul (S754_finite s m e) one = S754_finite s m e.
Proof.
  intros Hd He. unfold display.fmul, SFmul, one.
  rewrite Pos.mul_comm.
  change (Pos.mul 4503599627370496 m) with (Pos.iter xO m 52).
  rewrite xorb_false_r.
  assert (Hshr : shr_fexp 53 1024 (Zpos (Pos.iter xO m 52)) (e + -52) loc_Exact
                 = ({| shr_m := Zpos m; shr_r := false; shr_s := false |}, e)).
  { unfold shr_fexp, Zdigits2, fexp, emin. rewrite digits2_shift, Pos2Z.inj_add, Hd.
    replace (Z.max (53 + 52 + (e + -52) - 53) (3 - 1024 - 53) - (e + -52))
      with 52 by lia.
    unfold shr. apply f_equal2; [reflexivity | lia]. }
  unfold binary_round_aux. rewrite Hshr.
  cbn [shr_m loc_of_shr_record round_nearest_even].
  rewrite (shr_fexp_normal m e Hd) by lia. cbn [shr_m].
  destruct (Z.leb_spec e (1024 - 53)); [reflexivity | lia].
Qed.

Lemma CreateProgressBar_full (total : time.Duration) (width : Z) :
  0 < total < 2 ^ 53 -> 0 < width < 2 ^ 53 ->
  display.CreateProgressBar total total width = None.
Proof.
  intros Ht Hw. unfold display.CreateProgressBar.
  destruct (Z.eqb_spec total 0) as [Hz | _]; [lia |].
  destruct (ofInt_exact total Ht) as [mt [et [Htot _]]].
  destruct (ofInt_exact width Hw) as [mw [ew [Hwid [Hdig [Hew Hback]]]]].
  rewrite Htot, Hwid, fdiv_self, fmul_one by (assumption || lia).
  unfold display.toInt. rewrite Hback.
  assert (Hin : inInt64 width = true).
  { unfold inInt64, MinInt64, MaxInt64.
    apply andb_true_intro. split; apply Z.leb_le; lia. }
  rewrite Hin. rewrite Z.gtb_ltb, Z.ltb_irrefl.
  destruct (Z.ltb_spec width 0); [lia |].
  rewrite Z.sub_diag. change (wrap64 (wrap64 0 - 1)) with (-1).
  destruct (strings.Repeat "━" width); reflexivity.
Qed.

(** With [current = total], anything from one nanosecond to just under
    [2 ^ 53] (some 104 days), [CreateProgressBar] panics at every width
    from 1 to just under [2 ^ 53]: the ratio is [1.0], [filled] is
    [width], and the count of the trailing rules is [-1]. *)
Theorem CreateProgressBar_full_panics (total : time.Duration) (width : Z) :
  0 < total < 2 ^ 53 -> 0 < width < 2 ^ 53 ->
  display.CreateProgressBar total total width = None.
Proof. apply CreateProgressBar_full. Qed.

Lemma CreateProgressBar_full_panics_witness :
  display.CreateProgressBar (ms 200000) (ms 200000) 50 = None
  /\ display.CreateProgressBar 1 1 1 = None.
Proof.
  split.
  - apply CreateProgressBar_full_panics; cbn; lia.
  - apply CreateProgressBar_full_panics; cbn; lia.
Defined.

Lemma render_at_end (st : appState) :
  shown st -> 0 < duration st < 2 ^ 53 -> progress st = duration st ->
  render st = None.
Proof.
  intros [Hstop Hname] Hdur Hend. unfold render.
  rewrite Hstop. apply String.eqb_neq in Hname. rewrite Hname. cbn [orb].
  unfold display.DisplayCurrentTrack.
  cbn [display.Name display.Artist display.Album display.Progress display.Duration].
  rewrite Hend, CreateProgressBar_full by lia.
  destruct (display.TruncateString (trackName st) 60);
    destruct (display.TruncateString (artistNames st) 60);
    destruct (display.TruncateString (albumName st) 60); reflexivity.
Qed.

(** The tick that takes a playing track on screen to its end brings
    [main] down.  For a view that is playing and not stopped, with a track
    name and [0 < duration < 2 ^ 53] nanoseconds, whose [progress] is at
    least [duration] less one second and at most [MaxInt64] less one
    second: the tick sets [progress] to [duration] and the drawing that
    follows panics.  (At [duration = 0] the bar is drawn, and beyond
    [MaxInt64] less one second the sum wraps: the loop goes on.) *)
Theorem tick_to_the_end_panics (st : appState) (rest : list Item) (pc : Client) :
  shown st -> isPlaying st = true ->
  0 < duration st < 2 ^ 53 ->
  duration st - time.Second <= progress st <= MaxInt64 - time.Second ->
  loop st (Tick :: rest) pc = ((Panic, set_progress st (duration st)), []).
Proof.
  intros Hshown Hplay Hdur Hnear.
  assert (Htick : tick st = set_progress st (duration st)).
  { rewrite (tick_playing st Hplay (proj1 Hshown)).
    rewrite add_second_exact
      by (unfold MinInt64; unfold time.Second, MaxInt64 in *; lia).
    rewrite Z.min_r by (unfold time.Second in *; lia). reflexivity. }
  assert (Hdraw : render (set_progress st (duration st)) = None).
  { apply render_at_end.
    - destruct Hshown as [Hs Hn]. split; destruct st; assumption.
    - destruct st; exact Hdur.
    - destruct st; reflexivity. }
  cbn [loop step]. unfold bind, ret. rewrite Htick. unfold rendered. rewrite Hdraw.
  reflexivity.
Qed.

Lemma tick_to_the_end_panics_witness :
  let st := set_isPlaying (applyEvent initial (sample.metadata "Song" 199500 200000)) true in
  controlOf (loop st [Tick; Key sample.space] sample.up) = Panic
  /\ progress (stateOf (loop st [Tick; Key sample.space] sample.up))
     = 200000 * time.Millisecond.
Proof.
  intros st.
  assert (Hshown : shown st)
    by (split; [vm_compute; reflexivity | vm_compute; discriminate]).
  assert (Hplay : isPlaying st = true) by (vm_compute; reflexivity).
  assert (Hdur : 0 < duration st < 2 ^ 53) by (vm_compute; split; reflexivity).
  assert (Hnear : duration st - time.Second <= progress st <= MaxInt64 - time.Second)
    by (vm_compute; split; discriminate).
  rewrite (tick_to_the_end_panics st [Key sample.space] sample.up Hshown Hplay Hdur Hnear).
  split; reflexivity.
Defined.

(** * Properties of the event reader *)

Lemma Start_messages (msgs : list json.Text) (rest : list Read) :
  Start (map ReadMsg msgs ++ rest) = (Start (map ReadMsg msgs) ++ Start rest)%list.
Proof.
  induction msgs as [| msg msgs IH]; [reflexivity |].
  cbn [map app Start].
  destruct (json.Unmarshal msg : option Event); rewrite IH; reflexivity.
Qed.

Lemma Start_cut (before after : list Read) :
  Start (before ++ ReadErr :: after) = Start before.
Proof.
  induction before as [| r before IH].
  - reflexivity.
  - cbn [app Start]. destruct r as [| msg]; [reflexivity |].
    destruct (json.Unmarshal msg : option Event); rewrite IH; reflexivity.
Qed.

Lemma Start_sent (reads : list Read) (ev : Event) :
  In ev (Start reads) ->
  exists msg, In (ReadMsg msg) reads /\ json.Unmarshal msg = Some ev.
Proof.
  induction reads as [| r reads IH]; cbn [Start]; [contradiction |].
  destruct r as [| msg]; [contradiction |].
  destruct (json.Unmarshal msg : option Event) as [ev' |] eqn:Hdec.
  - intros [<- | Hin].
    + exists msg. split; [left; reflexivity | exact Hdec].
    + destruct (IH Hin) as [m [Hm Hd]]. exists m. split; [right; exact Hm | exact Hd].
  - intros Hin. destruct (IH Hin) as [m [Hm Hd]].
    exists m. split; [right; exact Hm | exact Hd].
Qed.

Lemma Start_length (reads : list Read) :
  (List.length (Start reads) <= List.length reads)%nat.
Proof.
  induction reads as [| r reads IH]; cbn [Start List.length]; [lia |].
  destruct r as [| msg]; cbn [List.length]; [lia |].
  destruct (json.Unmarshal msg : option Event); cbn [List.length]; lia.
Qed.

(** The reader sends on the channel nothing but decoded messages, in the
    order they were read, at most one event per read, and nothing that was
    read after the first read error. *)
Theorem Start_sends (msgs : list json.Text) (before after : list Read) :
  Start (map ReadMsg msgs ++ after)
  = (Start (map ReadMsg msgs) ++ Start after)%list
  /\ Start (before ++ ReadErr :: after) = Start before
  /\ (List.length (Start before) <= List.length before)%nat
  /\ (forall ev, In ev (Start before) ->
        exists msg, In (ReadMsg msg) before /\ json.Unmarshal msg = Some ev).
Proof.
  conjuncts.
  - apply Start_messages.
  - apply Start_cut.
  - apply Start_length.
  - apply Start_sent.
Qed.

(** * Properties of the device helpers *)

Import devices.

Lemma firstActive_some (l : list Device) (d : Device) :
  firstActive l = Some d ->
  IsActive d = true
  /\ exists before after,
       l = (before ++ d :: after)%list
       /\ forall a, In a before -> IsActive a = false.
Proof.
  induction l as [| x l IH]; cbn [firstActive]; [discriminate |].
  destruct (IsActive x) eqn:Hx.
  - intros H. injection H as <-. split; [exact Hx |].
    exists [], l. split; [reflexivity | contradiction].
  - intros H. destruct (IH H) as [Hd [before [after [Hl Hnone]]]].
    split; [exact Hd |]. exists (x :: before), after. split.
    + rewrite Hl. reflexivity.
    + intros a [<- | Ha]; [exact Hx | apply Hnone, Ha].
Qed.

Lemma firstActive_none (l : list Device) :
  firstActive l = None -> forall a, In a l -> IsActive a = false.
Proof.
  induction l as [| x l IH]; cbn [firstActive]; [contradiction |].
  destruct (IsActive x) eqn:Hx; [discriminate |].
  intros H a [<- | Ha]; [exact Hx | apply IH; assumption].
Qed.

(** [SelectDeviceInteractive] fails on the empty list only.  Otherwise
    it returns a device of the list: the first active one when some device
    is active, and the first device of the list when none is. *)
Theorem SelectDeviceInteractive_choice (l : list Device) :
  match SelectDeviceInteractive l with
  | Err _ => l = []
  | Ok d =>
      In d l
      /\ ((exists a, In a l /\ IsActive a = true) ->
          IsActive d = true
          /\ exists before after,
               l = (before ++ d :: after)%list
               /\ forall a, In a before -> IsActive a = false)
      /\ ((forall a, In a l -> IsActive a = false) -> hd_error l = Some d)
  end.
Proof.
  destruct l as [| x [| y l]].
  - reflexivity.
  - cbn [SelectDeviceInteractive]. conjuncts.
    + left. reflexivity.
    + intros [a [[<- | []] Ha]]. split; [exact Ha |].
      exists [], []. split; [reflexivity | contradiction].
    + reflexivity.
  - unfold SelectDeviceInteractive.
    destruct (firstActive (x :: y :: l)) as [d |] eqn:Hfirst.
    + destruct (firstActive_some _ _ Hfirst) as [Hd [before [after [Hl Hnone]]]].
      conjuncts.
      * rewrite Hl. apply in_elt.
      * intros _. split; [exact Hd |]. exists before, after. split; assumption.
      * intros Hall. exfalso.
        assert (Hin : In d (x :: y :: l)) by (rewrite Hl; apply in_elt).
        rewrite (Hall d Hin) in Hd. discriminate.
    + pose proof (firstActive_none _ Hfirst) as Hnone. conjuncts.
      * left. reflexivity.
      * intros [a [Ha Hact]]. rewrite (Hnone a Ha) in Hact. discriminate.
      * reflexivity.
Qed.

Lemma prefix_same (s : string) : prefix s s = true.
Proof.
  induction s as [| c s IH]; [reflexivity |].
  cbn [prefix]. destruct (ascii_dec c c); [exact IH | contradiction].
Qed.

Lemma Contains_same (s : string) : Contains s s = true.
Proof.
  unfold Contains. destruct s as [| c s]; [reflexivity |].
  cbn [index]. rewrite prefix_same. reflexivity.
Qed.

(** [FindDeviceByName] returns the first device whose lower-cased name
    contains the lower-cased query, and fails when there is none.  Its
    test for an exact match decides nothing: an earlier device that only
    contains the query is preferred to a later one that equals it. *)
Theorem FindDeviceByName_first_containing
  (ToLower : string -> string) (l : list Device) (name : string) :
  FindDeviceByName ToLower l name
  = match find (fun d => Contains (ToLower (Name d)) (ToLower name)) l with
    | Some d => Ok d
    | None => Err ("device not found: " ++ ToLower name)
    end.
Proof.
  unfold FindDeviceByName. cbv zeta.
  assert (H : byName ToLower l (ToLower name)
              = find (fun d => Contains (ToLower (Name d)) (ToLower name)) l).
  { induction l as [| d l IH]; [reflexivity |].
    cbn [byName find].
    destruct (ToLower (Name d) == ToLower name) eqn:Heq.
    - apply String.eqb_eq in Heq. rewrite Heq, Contains_same. reflexivity.
    - destruct (Contains (ToLower (Name d)) (ToLower name)); [reflexivity | exact IH]. }
  rewrite H. reflexivity.
Qed.

(** What [GetDevices] makes of the listing, and what
    [EnsureActiveDevice] does with it.  Every device supports volume
    exactly when it is not restricted.  When the first listing has an
    active device, the first such device is returned and nothing is
    requested.  Otherwise, when the first listing failed or has no active
    device: if the second listing fails, its error is returned; if it is
    empty, the "no devices available" error; in both cases nothing is
    requested.  If it has a device, exactly one transfer is requested, to
    its first device and without starting playback; that device is
    returned if the transfer is accepted, and the wrapped error of the
    transfer if it is not. *)
Theorem EnsureActiveDevice_transfers
  (first second : Result (list PlayerDevice)) (transfer : Transfer -> option string) :
  (forall l d, GetDevices first = Ok l -> In d l ->
     SupportsVolume d = negb (IsRestricted d))
  /\ ((exists l before d after,
         GetDevices first = Ok l /\ l = (before ++ d :: after)%list
         /\ (forall a, In a before -> IsActive a = false) /\ IsActive d = true
         /\ EnsureActiveDevice first second transfer = (Ok d, []))
      \/ (((exists err, GetDevices first = Err err)
           \/ (exists l, GetDevices first = Ok l
                         /\ forall a, In a l -> IsActive a = false))
          /\ match GetDevices second with
             | Err err => EnsureActiveDevice first second transfer = (Err err, [])
             | Ok [] =>
                 EnsureActiveDevice first second transfer
                 = (Err "no devices available - please open Spotify on a device", [])
             | Ok (d :: _) =>
                 let request := {| deviceID := ID d; play := false |} in
                 EnsureActiveDevice first second transfer
                 = match transfer request with
                   | None => (Ok d, [request])
                   | Some err =>
                       (Err ("failed to transfer playback: " ++ err), [request])
                   end
             end)).
Proof.
  split.
  - intros l d Hl Hin. destruct first as [pds | err]; [| discriminate].
    cbn [GetDevices] in Hl. injection Hl as <-.
    apply in_map_iff in Hin as [pd [<- _]]. reflexivity.
  - unfold EnsureActiveDevice, GetActiveDevice.
    destruct (GetDevices first) as [l | err] eqn:Hfirst.
    + destruct (firstActive l) as [d |] eqn:Hf.
      * left. destruct (firstActive_some l d Hf) as [Hd [before [after [Hl Hnone]]]].
        exists l, before, d, after. conjuncts; auto.
      * right. split.
        { right. exists l. split; [reflexivity | apply firstActive_none, Hf]. }
        destruct (GetDevices second) as [[| d rest] | e]; try reflexivity.
        cbv zeta. unfold TransferPlayback.
        destruct (transfer {| deviceID := ID d; play := false |}); reflexivity.
    + right. split.
      { left. exists err. reflexivity. }
      destruct (GetDevices second) as [[| d rest] | e]; try reflexivity.
      cbv zeta. unfold TransferPlayback.
      destruct (transfer {| deviceID := ID d; play := false |}); reflexivity.
Qed.

Lemma Start_sends_witness :
  let paused := Some (json.Object [("type", json.Str "paused")]) in
  let garbled := None in
  Start [ReadMsg paused; ReadMsg garbled; ReadErr; ReadMsg paused]
  = [sample.bare "paused"]
  /\ exists msg,
       In (ReadMsg msg) [ReadMsg garbled; ReadMsg paused]
       /\ json.Unmarshal msg = Some (sample.bare "paused").
Proof.
  intros paused garbled.
  destruct (Start_sends [paused; garbled] [ReadMsg garbled; ReadMsg paused]
              [ReadMsg paused]) as [_ [Hcut [_ Hsent]]].
  split.
  - change [ReadMsg paused; ReadMsg garbled; ReadErr; ReadMsg paused]
      with ([ReadMsg paused; ReadMsg garbled] ++ ReadErr :: [ReadMsg paused])%list.
    rewrite (proj1 (proj2 (Start_sends [] [ReadMsg paused; ReadMsg garbled]
                             [ReadMsg paused]))).
    reflexivity.
  - apply Hsent. left. reflexivity.
Defined.

Lemma handleKey_quits_iff_witness :
  fst (fst (handleKey [x03] initial sample.down)) = true
  /\ handleKey ["q"%byte] initial sample.down = ((true, initial), [])
  /\ fst (fst (handleKey sample.space initial sample.down)) <> true.
Proof.
  destruct (handleKey_quits_iff [x03] initial sample.down) as [[_ Hq] _].
  destruct (handleKey_quits_iff ["q"%byte] initial sample.down) as [[_ Hq'] Hsame].
  destruct (handleKey_quits_iff sample.space initial sample.down) as [[Hnot _] _].
  conjuncts.
  - apply Hq. right. reflexivity.
  - apply Hsame, Hq'. left. reflexivity.
  - intros H. destruct (Hnot H) as [H' | H']; discriminate H'.
Defined.

Lemma SelectDeviceInteractive_choice_witness :
  let kitchen := device "1" "Kitchen" false in
  let office := device "2" "Office" true in
  let car := device "3" "Car" true in
  SelectDeviceInteractive [kitchen; office; car] = Ok office
  /\ SelectDeviceInteractive [kitchen] = Ok kitchen
  /\ SelectDeviceInteractive [kitchen; device "4" "Hall" false] = Ok kitchen.
Proof.
  intros kitchen office car.
  pose proof (SelectDeviceInteractive_choice [kitchen; office; car]) as H1.
  pose proof (SelectDeviceInteractive_choice [kitchen; device "4" "Hall" false]) as H2.
  destruct (SelectDeviceInteractive [kitchen; office; car]) as [d |] eqn:E1;
    [| discriminate H1].
  destruct (SelectDeviceInteractive [kitchen; device "4" "Hall" false]) as [d' |] eqn:E2;
    [| discriminate H2].
  destruct H1 as [_ [Hactive _]]. destruct H2 as [_ [_ Hfirst]].
  conjuncts.
  - destruct Hactive as [_ [before [after [Hl Hnone]]]].
    { exists office. split; [right; left; reflexivity | reflexivity]. }
    vm_compute in E1. injection E1 as <-. reflexivity.
  - reflexivity.
  - assert (Hhd : hd_error [kitchen; device "4" "Hall" false] = Some d').
    { apply Hfirst. intros a [<- | [<- | []]]; reflexivity. }
    cbn in Hhd. injection Hhd as <-. reflexivity.
Defined.

Lemma FindDeviceByName_first_containing_witness :
  let speaker := device "1" "Living Room Speaker" false in
  let room := device "2" "Living Room" true in
  FindDeviceByName asciiLower [speaker; room] "LIVING room" = Ok speaker
  /\ FindDeviceByName asciiLower [speaker; room] "kitchen"
     = Err "device not found: kitchen"
  /\ FindDeviceByName asciiLower [speaker; room] "" = Ok speaker.
Proof.
  intros speaker room.
  rewrite !FindDeviceByName_first_containing.
  conjuncts; reflexivity.
Defined.

Lemma EnsureActiveDevice_transfers_witness :
  let idle := Ok [listed "1" "Kitchen" false; listed "2" "Office" false] in
  let busy := Ok [listed "1" "Kitchen" false; listed "2" "Office" true] in
  let accept (_ : Transfer) : option string := None in
  let refuse (_ : Transfer) : option string := Some "403" in
  EnsureActiveDevice idle idle accept
  = (Ok (device "1" "Kitchen" false), [{| deviceID := "1"; play := false |}])
  /\ EnsureActiveDevice idle idle refuse
     = (Err "failed to transfer playback: 403", [{| deviceID := "1"; play := false |}])
  /\ EnsureActiveDevice (Err "timeout") (Ok []) accept
     = (Err "no devices available - please open Spotify on a device", [])
  /\ exists d, EnsureActiveDevice busy idle accept = (Ok d, []) /\ IsActive d = true.
Proof.
  intros idle busy accept refuse.
  assert (Hnone : forall t, ~ exists l before d after,
            GetDevices idle = Ok l /\ l = (before ++ d :: after)%list
            /\ (forall a, In a before -> IsActive a = false) /\ IsActive d = true
            /\ EnsureActiveDevice idle idle t = (Ok d, [])).
  { intros t [l [before [d [after [Hl [Hsplit [_ [Hd _]]]]]]]].
    assert (Hin : In d l) by (rewrite Hsplit; apply in_elt).
    vm_compute in Hl. injection Hl as <-.
    destruct Hin as [<- | [<- | []]]; discriminate Hd. }
  destruct (EnsureActiveDevice_transfers idle idle accept) as [_ [Hact | [_ H1]]];
    [destruct (Hnone accept Hact) |].
  destruct (EnsureActiveDevice_transfers idle idle refuse) as [_ [Hact | [_ H2]]];
    [destruct (Hnone refuse Hact) |].
  destruct (EnsureActiveDevice_transfers (Err "timeout") (Ok []) accept)
    as [_ [[l [b [d [a [Hl _]]]]] | [_ H3]]]; [discriminate Hl |].
  destruct (EnsureActiveDevice_transfers busy idle accept)
    as [_ [[l [b [d [a [_ [_ [_ [Hd Hrun]]]]]]]] | [[[err He] | [l [Hl Hall]]] _]]].
  - conjuncts; [exact H1 | exact H2 | exact H3 |].
    exists d. split; assumption.
  - discriminate He.
  - exfalso. vm_compute in Hl. injection Hl as <-.
    specialize (Hall (device "2" "Office" true)).
    discriminate Hall. right. left. reflexivity.
Defined.

(** * The clock between events *)

Lemma ticks_succ (n : nat) (st : appState) : ticks (S n) st = tick (ticks n st).
Proof. unfold ticks. apply Nat.iter_succ. Qed.

(** While a track plays, [n] ticks add [n] seconds to [progress] and
    stop at [duration]: from a view with [0 <= progress <= duration] and
    room for one more second, [progress] after [n] ticks is
    [min (progress + n s) duration], and nothing else has changed. *)
Theorem ticks_advance (st : appState) (n : nat) :
  isPlaying st = true -> stopped st = false -> roomy st ->
  ticks n st
  = set_progress st (Z.min (progress st + Z.of_nat n * time.Second) (duration st)).
Proof.
  intros Hplay Hstop [[H0 Hle] Hroom].
  induction n as [| n IH].
  - unfold ticks. cbn [Nat.iter]. rewrite Z.mul_0_l, Z.add_0_r, Z.min_l by lia.
    destruct st; reflexivity.
  - rewrite ticks_succ, IH.
    set (p := Z.min (progress st + Z.of_nat n * time.Second) (duration st)).
    assert (Hp : 0 <= p <= duration st) by (unfold p, time.Second; lia).
    rewrite tick_playing by (destruct st; assumption).
    replace (progress (set_progress st p)) with p by (destruct st; reflexivity).
    replace (duration (set_progress st p)) with (duration st) by (destruct st; reflexivity).
    rewrite add_second_exact
      by (unfold MinInt64; unfold MaxInt64, time.Second in *; lia).
    replace (Z.min (p + 1000000000) (duration st))
      with (Z.min (progress st + Z.of_nat (S n) * time.Second) (duration st))
      by (unfold p, time.Second; lia).
    destruct st; reflexivity.
Qed.

Lemma ticks_advance_witness :
  let st := set_isPlaying (applyEvent initial (sample.metadata "Song" 195000 200000)) true in
  progress (ticks 3 st) = 198000 * time.Millisecond
  /\ progress (ticks 10 st) = 200000 * time.Millisecond.
Proof.
  intros st.
  assert (Hplay : isPlaying st = true) by (vm_compute; reflexivity).
  assert (Hstop : stopped st = false) by (vm_compute; reflexivity).
  assert (Hroomy : roomy st).
  { unfold roomy, withinTrack. vm_compute. intuition discriminate. }
  rewrite (ticks_advance st 3 Hplay Hstop Hroomy).
  rewrite (ticks_advance st 10 Hplay Hstop Hroomy).
  split; vm_compute; reflexivity.
Defined.

(** Whatever the status request returns, also nothing, [main] draws its
    first screen without panicking and enters the loop with the seeded
    view; no request has been made. *)
Theorem main_starts (status : option Status) (pc : Client) :
  main.main status [] pc = ((Continue, seed status), [])
  /\ progress (seed status) = 0
  /\ (status = None -> seed status = initial).
Proof.
  assert (Hzero : progress (seed status) = 0).
  { destruct status as [s |]; [apply applyStatus_progress | reflexivity]. }
  conjuncts.
  - unfold main.main. rewrite (rendered_at_start _ Hzero). reflexivity.
  - exact Hzero.
  - intros ->. reflexivity.
Qed.

Lemma main_starts_witness :
  main.main None [] sample.down = ((Continue, initial), [])
  /\ seed None = initial.
Proof.
  destruct (main_starts None sample.down) as [Hrun [_ Hseed]].
  split; [exact Hrun | apply Hseed; reflexivity].
Defined.
